(** * URL shortener: cache-aside resolution, code generation and abuse guard

    A shallow embedding of the backend of the URL shortener
    (src/config/redis.js, src/models/url.model.js,
    src/middleware/rateLimiter.js, src/middleware/validator.js,
    src/controllers/url.controller.js, src/routes/*.js, src/server.js,
    database/schema.sql) together with the properties its design document
    states about it.

    Conventions.
    - Time is a single clock in milliseconds ([Z]); [Date.now()], the
      database's [CURRENT_TIMESTAMP] and the Redis clock all read it.
    - Every [async] function becomes a function from the state it reads to
      its result and the state it leaves behind; a call runs to its end
      before the next one starts.
    - The Redis commands of a call may fail with an error: every command
      of [redisClient] then throws, and the helpers of [cache] catch. A
      server that cannot be reached at all is another case and is left
      out: the client built in redis.js queues the commands, and a helper
      that waits for one does not return. The database is reachable; the
      one statement of it that can fail is an insert that breaks a
      constraint of the schema.
    - The body of a creation request holds a string [url] and an
      [expiresIn] that is absent or an integer. Other JSON bodies are left
      out: the validator of the route checks an array element by element
      while the handler uses the array whole, so such a body can pass it.
      Instants and durations are unbounded integers.
    - A JavaScript string is a [string]; the regular expressions of the
      abuse guard only contain ASCII letters, which the [i] flag pairs with
      ASCII letters only.
    - The requests of a trace are creation, redirect and delete. The
      analytics read touches neither the cache nor the guard and changes
      nothing: it is a function of the world of its own
      ([URLController.getAnalytics]). The health check and the listing of
      rows ([getAll]) are left out. *)

From stdpp Require Import gmap strings list fin_maps.
From Stdlib Require Import ZArith Ascii String Lia Bool.

Open Scope string_scope.
Open Scope Z_scope.

(** ** Rows of the [urls] and [url_analytics] tables (database/schema.sql) *)

Record UrlRow := mkUrlRow {
  id : Z;                      (* BIGSERIAL PRIMARY KEY *)
  short_code : string;         (* VARCHAR(10) UNIQUE NOT NULL *)
  original_url : string;       (* TEXT NOT NULL *)
  created_at : Z;              (* DEFAULT CURRENT_TIMESTAMP *)
  expires_at : option Z;       (* TIMESTAMP, NULL when absent *)
  click_count : Z;             (* BIGINT DEFAULT 0 *)
  last_accessed : option Z;    (* TIMESTAMP *)
  creator_ip : string;         (* VARCHAR(45) *)
  is_active : bool             (* BOOLEAN DEFAULT TRUE *)
}.

Record AnalyticsRow := mkAnalyticsRow {
  a_id : Z;
  url_id : option Z;           (* REFERENCES urls(id) *)
  accessed_at : Z;
  ip_address : string;
  user_agent : option string;
  referer : option string
}.

Record Database := mkDatabase {
  urls : list UrlRow;                (* in insertion order *)
  url_analytics : list AnalyticsRow;
  urls_id_seq : Z;                   (* next value of the BIGSERIAL of urls *)
  url_analytics_id_seq : Z
}.

(** ** JavaScript values that travel through the cache

    The cache stores [JSON.stringify(value)] and hands back
    [JSON.parse(value)]; the counters written by [INCR] are decimal strings
    that [JSON.parse] reads as numbers. *)

Inductive jval :=
| JNum (n : Z)                 (* a counter *)
| JRow (r : UrlRow)            (* a row of urls *)
| JBlocked (unblockAt : Z).    (* { unblockAt } *)

(** JavaScript truthiness: an object is truthy, a number is truthy unless 0. *)
Definition truthy (v : jval) : bool :=
  match v with
  | JNum n => negb (n =? 0)
  | _ => true
  end.

(** Property reads; [None] is [undefined]. *)
Definition get_short_code (v : jval) : option string :=
  match v with JRow r => Some (short_code r) | _ => None end.
Definition get_original_url (v : jval) : option string :=
  match v with JRow r => Some (original_url r) | _ => None end.
Definition get_id (v : jval) : option Z :=
  match v with JRow r => Some (id r) | _ => None end.
Definition get_unblockAt (v : jval) : option Z :=
  match v with JBlocked t => Some t | _ => None end.

(** ** The Redis server behind [redisClient]

    A key holds a value and, when one was set, the instant at which it
    expires. A key whose instant has passed is gone for every command. *)

Record entry := mkEntry {
  val : jval;
  expiry : option Z
}.

Module Redis.

Definition live (now : Z) (e : entry) : bool :=
  match expiry e with
  | None => true
  | Some t => now <? t
  end.

(** GET *)
Definition get (now : Z) (k : string) (m : gmap string entry) : option jval :=
  match m !! k with
  | Some e => if live now e then Some (val e) else None
  | None => None
  end.

(** SETEX key ttl value; a ttl that is not positive is an error. *)
Definition setEx (now : Z) (k : string) (ttl : Z) (v : jval)
    (m : gmap string entry) : option (gmap string entry) :=
  if 0 <? ttl then Some (<[k := mkEntry v (Some (now + ttl * 1000))]> m)
  else None.

(** DEL *)
Definition del (k : string) (m : gmap string entry) : gmap string entry :=
  delete k m.

(** INCR: a missing key counts from 0 and gets no expiry; the expiry of an
    existing counter is kept; a value that is not an integer is an error. *)
Definition incr (now : Z) (k : string) (m : gmap string entry)
    : option (Z * gmap string entry) :=
  match m !! k with
  | Some e =>
      if live now e then
        match val e with
        | JNum n => Some (n + 1, <[k := mkEntry (JNum (n + 1)) (expiry e)]> m)
        | _ => None
        end
      else Some (1, <[k := mkEntry (JNum 1) None]> m)
  | None => Some (1, <[k := mkEntry (JNum 1) None]> m)
  end.

(** EXPIRE key ttl; a ttl that is not positive deletes the key. *)
Definition expire (now : Z) (k : string) (ttl : Z) (m : gmap string entry)
    : gmap string entry :=
  match m !! k with
  | Some e =>
      if live now e then
        if 0 <? ttl then <[k := mkEntry (val e) (Some (now + ttl * 1000))]> m
        else delete k m
      else m
  | None => m
  end.

End Redis.

(** ** Process environment and per-call context (src/config/redis.js) *)

Record Config := mkConfig {
  CACHE_ENABLED : option string;          (* process.env.CACHE_ENABLED *)
  REDIS_TTL : option Z;                   (* parseInt(process.env.REDIS_TTL); None is NaN *)
  RATE_LIMIT_WINDOW_MS : option Z;        (* parseInt(...); None is NaN *)
  RATE_LIMIT_MAX_REQUESTS : option Z
}.

(** [x || d] on the result of [parseInt]: NaN and 0 are falsy. *)
Definition or_default (x : option Z) (d : Z) : Z :=
  match x with
  | Some n => if n =? 0 then d else n
  | None => d
  end.

(** [!process.env.CACHE_ENABLED || process.env.CACHE_ENABLED === 'false'] *)
Definition cache_disabled (cfg : Config) : bool :=
  match CACHE_ENABLED cfg with
  | None => true
  | Some s => (s =? "")%string || (s =? "false")%string
  end.

(** What one call sees of the outside: the configuration, the clock, and
    whether the Redis commands succeed ([false]: every command of
    [redisClient] throws an error). *)
Record Ctx := mkCtx {
  cfg : Config;
  now : Z;
  redis_up : bool
}.

(** ** Cache helper functions (src/config/redis.js, [cache]) *)

Module cache.

Definition default_ttl (c : Config) : Z := or_default (REDIS_TTL c) 86400.

Definition get (x : Ctx) (key : string) (m : gmap string entry) : option jval :=
  if cache_disabled (cfg x) then None
  else if redis_up x then Redis.get (now x) key m
  else None.

Definition set (x : Ctx) (key : string) (value : jval) (ttl : Z)
    (m : gmap string entry) : gmap string entry :=
  if cache_disabled (cfg x) then m
  else if redis_up x then
    match Redis.setEx (now x) key ttl value m with
    | Some m' => m'
    | None => m
    end
  else m.

Definition del (x : Ctx) (key : string) (m : gmap string entry)
    : gmap string entry :=
  if redis_up x then Redis.del key m else m.

Definition increment (x : Ctx) (key : string) (ttl : Z)
    (m : gmap string entry) : Z * gmap string entry :=
  if redis_up x then
    match Redis.incr (now x) key m with
    | Some (value, m') =>
        if value =? 1 then (value, Redis.expire (now x) key ttl m')
        else (value, m')
    | None => (0, m)
    end
  else (0, m).

Definition exists_ (x : Ctx) (key : string) (m : gmap string entry) : bool :=
  if redis_up x then
    match Redis.get (now x) key m with Some _ => true | None => false end
  else false.

End cache.

(** ** The model layer (src/models/url.model.js) *)

(** The alphabet handed to [customAlphabet]: URL-safe, without the
    characters that are easily confused. *)
Definition alphabet : string :=
  "0123456789ABCDEFGHJKLMNPQRSTUVWXYZabcdefghjkmnpqrstuvwxyz".

(** The entropy a process draws from: the i-th random number. [nanoid] is
    an npm dependency; what the model keeps of a generator made by
    [customAlphabet(alphabet, size)] is that one call consumes entropy and
    yields [size] symbols, each picked from [alphabet]. *)
Definition Entropy := nat → nat.

Definition symbol (abc : string) (n : nat) : ascii :=
  List.nth (n mod String.length abc)%nat (list_ascii_of_string abc) "0"%char.

Fixpoint draw (abc : string) (rnd : Entropy) (pos size : nat) : string :=
  match size with
  | O => EmptyString
  | S k => String (symbol abc (rnd pos)) (draw abc rnd (S pos) k)
  end.

Definition customAlphabet (abc : string) (size : nat) (rnd : Entropy) (pos : nat)
    : string * nat :=
  (draw abc rnd pos size, (pos + size)%nat).

(** [const nanoid = customAlphabet('0123...xyz', 7)] *)
Definition nanoid : Entropy → nat → string * nat := customAlphabet alphabet 7.

Definition not_expired (t : Z) (r : UrlRow) : bool :=
  match expires_at r with
  | None => true                 (* expires_at IS NULL *)
  | Some e => t <? e             (* expires_at > CURRENT_TIMESTAMP *)
  end.

Module URLModel.

(** [SELECT id FROM urls WHERE short_code = $1] has a row. *)
Definition code_taken (db : Database) (shortCode : string) : bool :=
  existsb (λ r, (short_code r =? shortCode)%string) (urls db).

(** The [for] loop of [generateUniqueShortCode] with [attempts] rounds
    left, followed by the longer code. *)
Fixpoint generate_loop (db : Database) (rnd : Entropy) (attempts pos : nat)
    : string * nat :=
  match attempts with
  | O =>
      let longerNanoid := customAlphabet alphabet 10 in
      longerNanoid rnd pos
  | S k =>
      let '(shortCode, pos') := nanoid rnd pos in
      if code_taken db shortCode then generate_loop db rnd k pos'
      else (shortCode, pos')
  end.

(** [attempt] runs over 0, 1, ... while [attempt < maxAttempts]. *)
Definition generateUniqueShortCode (db : Database) (maxAttempts : Z)
    (rnd : Entropy) (pos : nat) : string * nat :=
  generate_loop db rnd (Z.to_nat maxAttempts) pos.

Definition DEFAULT_MAX_ATTEMPTS : Z := 5.

(** [INSERT INTO urls (short_code, original_url, creator_ip, expires_at)
    ... RETURNING *]. The statement fails on a short code that some row
    already has (UNIQUE) and on a value longer than its VARCHAR. The model
    lets the sequence of [id] advance on every refused insert; the
    properties below use of the sequence only that it lies above every id
    given out, which holds whether or not a refusal draws from it. *)
Definition insert_url (t : Z) (db : Database)
    (shortCode originalUrl creatorIp : string) (expiresAt : option Z)
    : option UrlRow * Database :=
  let db' := mkDatabase (urls db) (url_analytics db)
               (urls_id_seq db + 1) (url_analytics_id_seq db) in
  if code_taken db shortCode
     || (10 <? Z.of_nat (String.length shortCode))
     || (45 <? Z.of_nat (String.length creatorIp))
  then (None, db')
  else
    let row := mkUrlRow (urls_id_seq db) shortCode originalUrl t expiresAt
                 0 None creatorIp true in
    (Some row,
     mkDatabase (urls db ++ [row]) (url_analytics db)
       (urls_id_seq db + 1) (url_analytics_id_seq db)).

(** [create(originalUrl, creatorIp, expiresIn = null)]; [None] as a
    result is the exception thrown by the insert. [if (expiresIn)] is
    false for [null], [undefined] and 0. *)
Definition create (t : Z) (rnd : Entropy) (pos : nat) (db : Database)
    (originalUrl creatorIp : string) (expiresIn : option Z)
    : option UrlRow * Database * nat :=
  let '(shortCode, pos') :=
    generateUniqueShortCode db DEFAULT_MAX_ATTEMPTS rnd pos in
  let expiresAt :=
    match expiresIn with
    | Some e => if e =? 0 then None else Some (t + e * 1000)
    | None => None
    end in
  let '(row, db') := insert_url t db shortCode originalUrl creatorIp expiresAt in
  (row, db', pos').

(** [WHERE short_code = $1 AND is_active = TRUE AND (expires_at IS NULL
    OR expires_at > CURRENT_TIMESTAMP)], then [rows[0]]. *)
Definition findByShortCode (t : Z) (db : Database) (shortCode : string)
    : option UrlRow :=
  List.find
    (λ r, (short_code r =? shortCode)%string && is_active r && not_expired t r)
    (urls db).

(** [ORDER BY created_at DESC LIMIT 1]: the newest of the rows; among
    rows of one instant, which SQL leaves open, the one inserted last. *)
Definition newest (rows : list UrlRow) : option UrlRow :=
  fold_left
    (λ best r,
       match best with
       | None => Some r
       | Some b => if created_at b <=? created_at r then Some r else Some b
       end)
    rows None.

Definition findByOriginalUrl (t : Z) (db : Database) (originalUrl : string)
    : option UrlRow :=
  newest
    (List.filter
       (λ r, (original_url r =? originalUrl)%string && is_active r
             && not_expired t r)
       (urls db)).

(** The trigger [update_click_count] of schema.sql, fired for each row
    inserted into [url_analytics]. *)
Definition increment_click_count (new : AnalyticsRow) (rows : list UrlRow)
    : list UrlRow :=
  map
    (λ r,
       if decide (Some (id r) = url_id new) then
         mkUrlRow (id r) (short_code r) (original_url r) (created_at r)
           (expires_at r) (click_count r + 1) (Some (accessed_at new))
           (creator_ip r) (is_active r)
       else r)
    rows.

(** [INSERT INTO url_analytics (url_id, ip_address, user_agent, referer)].
    The insert fails when [url_id] names no row of [urls] (foreign key)
    or the address is longer than its VARCHAR. The handler neither awaits
    nor catches the promise, so the failure reaches no handler and no
    answer; what the runtime does with the unhandled rejection is not
    modelled. *)
Definition recordAnalytics (t : Z) (db : Database) (urlId : option Z)
    (ipAddress : string) (userAgent referer : option string) : Database :=
  let fk_ok :=
    match urlId with
    | None => true
    | Some i => existsb (λ r, id r =? i) (urls db)
    end in
  if fk_ok && (Z.of_nat (String.length ipAddress) <=? 45) then
    let new := mkAnalyticsRow (url_analytics_id_seq db) urlId t ipAddress
                 userAgent referer in
    mkDatabase (increment_click_count new (urls db))
      (url_analytics db ++ [new]) (urls_id_seq db)
      (url_analytics_id_seq db + 1)
  else
    mkDatabase (urls db) (url_analytics db) (urls_id_seq db)
      (url_analytics_id_seq db + 1).

Definition deactivate (r : UrlRow) : UrlRow :=
  mkUrlRow (id r) (short_code r) (original_url r) (created_at r)
    (expires_at r) (click_count r) (last_accessed r) (creator_ip r) false.

(** [UPDATE urls SET is_active = FALSE WHERE short_code = $1 RETURNING *],
    then [rows[0]]. *)
Definition delete (db : Database) (shortCode : string)
    : option UrlRow * Database :=
  let hit := λ r, (short_code r =? shortCode)%string in
  (option_map deactivate (List.find hit (urls db)),
   mkDatabase (map (λ r, if hit r then deactivate r else r) (urls db))
     (url_analytics db) (urls_id_seq db) (url_analytics_id_seq db)).

(** Update click count. *)
Definition incrementClickCount (t : Z) (db : Database) (i : Z) : Database :=
mkDatabase
  (map
     (λ r,
        if id r =? i then
          mkUrlRow (id r) (short_code r) (original_url r) (created_at r)
            (expires_at r) (click_count r + 1) (Some t)
            (creator_ip r) (is_active r)
        else r)
     (urls db))
  (url_analytics db) (urls_id_seq db) (url_analytics_id_seq db).

(** What [getAnalytics] selects: the row and the two counts over the
    analytics rows joined to it. *)
Record AnalyticsReport := mkAnalyticsReport {
  report_row : UrlRow;        (* u.* *)
  total_clicks : Z;           (* COUNT(a.id) *)
  unique_visitors : Z         (* COUNT(DISTINCT a.ip_address) *)
}.

(** [FROM urls u LEFT JOIN url_analytics a ON u.id = a.url_id WHERE
    u.short_code = $1 GROUP BY u.id], then [rows[0]]. *)
Definition getAnalytics (db : Database) (shortCode : string)
    : option AnalyticsReport :=
match List.find (λ u, (short_code u =? shortCode)%string) (urls db) with
| Some u =>
    let joined :=
      List.filter (λ a, bool_decide (url_id a = Some (id u))) (url_analytics db) in
    Some (mkAnalyticsReport u
            (Z.of_nat (List.length joined))
            (Z.of_nat (List.length (remove_dups (map ip_address joined)))))
| None => None
end.

(** The function [clean_expired_urls()] of schema.sql: [UPDATE urls SET
    is_active = FALSE WHERE expires_at IS NOT NULL AND expires_at <
    CURRENT_TIMESTAMP AND is_active = TRUE]. *)
Definition clean_expired_urls (t : Z) (db : Database) : Database :=
mkDatabase
  (map
     (λ r,
        match expires_at r with
        | Some e => if (e <? t) && is_active r then deactivate r else r
        | None => r
        end)
     (urls db))
  (url_analytics db) (urls_id_seq db) (url_analytics_id_seq db).

End URLModel.

(** ** What a handler answers *)

Inductive Response :=
| Created (newUrl : UrlRow)                         (* 201, success *)
| Existing (shortCode originalUrl : option string)  (* 200, existing: true *)
| Deleted                                           (* 200, 'URL deleted successfully' *)
| Redirect (location : option string)               (* 301 *)
| Fail (code : Z) (error : string)                  (* { error } *)
| Blocked (error : string) (unblockAt : option Z).  (* 429, { error, unblockAt } *)

Definition status (r : Response) : Z :=
  match r with
  | Created _ => 201
  | Existing _ _ => 200
  | Deleted => 200
  | Redirect _ => 301
  | Fail code _ => code
  | Blocked _ _ => 429
  end.

(** A middleware either calls [next()] or answers. *)
Inductive Verdict :=
| Next
| Halt (r : Response).

(** The state every server instance shares: the durable store and Redis. *)
Record World := mkWorld {
  db : Database;
  redis : gmap string entry
}.

(** ** Regular expressions of the abuse guard

    [/lit/i] looks for [lit] anywhere, [/lit$/i] at the end of the input;
    letters match in either case. *)

Definition lower (c : ascii) : ascii :=
  let n := nat_of_ascii c in
  if ((65 <=? n) && (n <=? 90))%nat then ascii_of_nat (n + 32) else c.

Fixpoint prefix_ci (lit s : string) : bool :=
  match lit, s with
  | EmptyString, _ => true
  | String a lit', String b s' => Ascii.eqb (lower a) (lower b) && prefix_ci lit' s'
  | String _ _, EmptyString => false
  end.

Fixpoint contains_ci (lit s : string) : bool :=
  prefix_ci lit s
  || match s with
     | EmptyString => false
     | String _ s' => contains_ci lit s'
     end.

Fixpoint ends_with_ci (lit s : string) : bool :=
  (prefix_ci lit s && (String.length lit =? String.length s)%nat)
  || match s with
     | EmptyString => false
     | String _ s' => ends_with_ci lit s'
     end.

Inductive Pattern :=
| Anywhere (lit : string)
| AtEnd (lit : string).

Definition test (p : Pattern) (s : string) : bool :=
  match p with
  | Anywhere lit => contains_ci lit s
  | AtEnd lit => ends_with_ci lit s
  end.

(** ** Rate limiting and abuse detection (src/middleware/rateLimiter.js) *)

(** The part of express-rate-limit the two limiters rely on. The library is
    an npm dependency; the model keeps its documented contract: a limiter
    asks its store to count one more hit for the key (the client address),
    takes what [increment] answers as the number of hits in the current
    window, answers 429 with its message once that number passes [max],
    and, when it is given no [store], counts in a table kept in the memory
    of the process (its MemoryStore). The library reads the hits off a
    record [{ totalHits, resetTime }]; the store of [globalLimiter] answers
    a bare number, which the model takes for the hits, as the comment in
    rateLimiter.js intends. Where a property below speaks of the 429 of
    the global limiter, it is as one more answer that may come first;
    none relies on the global limiter refusing a request. *)
Record Store := mkStore {
  store_increment : Ctx → string → gmap string entry → Z * gmap string entry;
  store_resetKey : Ctx → string → gmap string entry → gmap string entry
}.

Record RateLimitOptions := mkRateLimitOptions {
  windowMs : Z;
  max : Z;
  message : string;
  store : option Store
}.

Module MemoryStore.

(** Hits and reset instant per key, private to one process. *)
Definition increment (window t : Z) (key : string) (mem : gmap string (Z * Z))
    : Z * gmap string (Z * Z) :=
  match mem !! key with
  | Some (hits, reset) =>
      if t <? reset then (hits + 1, <[key := (hits + 1, reset)]> mem)
      else (1, <[key := (1, t + window)]> mem)
  | None => (1, <[key := (1, t + window)]> mem)
  end.

End MemoryStore.

Definition rateLimit (o : RateLimitOptions) (x : Ctx) (ip : string)
    (mem : gmap string (Z * Z)) (m : gmap string entry)
    : Verdict * gmap string (Z * Z) * gmap string entry :=
  let '(totalHits, mem', m') :=
    match store o with
    | Some s =>
        let '(n, m') := store_increment s x ip m in (n, mem, m')
    | None =>
        let '(n, mem') := MemoryStore.increment (windowMs o) (now x) ip mem in
        (n, mem', m)
    end in
  if max o <? totalHits then (Halt (Fail 429 (message o)), mem', m')
  else (Next, mem', m').

Module RateLimiter.

(** Global rate limiter: its store counts in Redis. *)
Definition globalLimiter (c : Config) : RateLimitOptions :=
  mkRateLimitOptions
    (or_default (RATE_LIMIT_WINDOW_MS c) (15 * 60 * 1000))
    (or_default (RATE_LIMIT_MAX_REQUESTS c) 100)
    "Too many requests from this IP, please try again later."
    (Some (mkStore
             (λ x key, cache.increment x ("ratelimit:" +:+ key) 900)
             (λ x key, cache.del x ("ratelimit:" +:+ key)))).

(** Stricter rate limiter for URL creation: no [store] is given. *)
Definition createUrlLimiter : RateLimitOptions :=
  mkRateLimitOptions
    (15 * 60 * 1000)
    10
    "Too many URLs created from this IP, please try again later."
    None.

(** [suspiciousCount > 50] on what [cache.get(key) || 0] gave: a number
    compares, an object compares false. *)
Definition exceeds (v : option jval) (bound : Z) : bool :=
  match v with
  | Some (JNum n) => bound <? n
  | _ => false
  end.

(** [if (v)] on what [cache.get] gave; [null] is falsy. *)
Definition present (v : option jval) : bool :=
  match v with
  | Some j => truthy j
  | None => false
  end.

(** Custom abuse detection middleware. The helpers of [cache] never
    throw, so its [catch] is not reached. *)
Definition abuseDetection (x : Ctx) (ip : string) (m : gmap string entry)
    : Verdict * gmap string entry :=
  let key := "abuse:" +:+ ip in
  let isBlocked := cache.get x ("blocked:" +:+ ip) m in
  if present isBlocked then
    (Halt (Blocked "Your IP has been temporarily blocked due to abuse detection."
             (isBlocked ≫= get_unblockAt)), m)
  else
    let suspiciousCount := cache.get x key m in
    if exceeds suspiciousCount 50 then
      let unblockAt := now x + 3600000 in
      (Halt (Blocked "Your IP has been blocked due to suspicious activity."
               (Some unblockAt)),
       cache.set x ("blocked:" +:+ ip) (JBlocked unblockAt) 3600 m)
    else (Next, m).

Definition suspiciousPatterns : list Pattern :=
  [ Anywhere "malware";
    Anywhere "phishing";
    AtEnd ".exe";
    AtEnd ".scr";
    Anywhere "bit.ly";
    Anywhere "tinyurl.com" ].

(** Track suspicious URL patterns. *)
Definition trackSuspiciousUrl (x : Ctx) (ip url : string)
    (m : gmap string entry) : bool * gmap string entry :=
  let key := "abuse:" +:+ ip in
  let isSuspicious := existsb (λ pattern, test pattern url) suspiciousPatterns in
  if isSuspicious then (true, snd (cache.increment x key 3600 m))
  else (false, m).

End RateLimiter.

(** What the analytics handler answers: 200 with the data, or an error. *)
Inductive AnalyticsAnswer :=
| AnalyticsData (shortCode originalUrl : string) (createdAt : Z)
    (clickCount totalClicks uniqueVisitors : Z) (lastAccessed : option Z)
| AnalyticsFail (code : Z) (error : string).

(** ** Request handlers (src/controllers/url.controller.js) *)

Module URLController.

Import RateLimiter.

(** [if (expiresIn)]: absent and 0 are falsy. *)
Definition given (expiresIn : option Z) : bool :=
  match expiresIn with
  | Some e => negb (e =? 0)
  | None => false
  end.

(** Lines 22-31 of [createShortUrl]: look the URL up in the cache, then
    in the database, caching what the database gave. *)
Definition lookupExisting (x : Ctx) (url : string) (d : Database)
    (m : gmap string entry) : option jval * gmap string entry :=
  let cacheKey := "url:" +:+ url in
  let existingUrl := cache.get x cacheKey m in
  if present existingUrl then (existingUrl, m)
  else
    match URLModel.findByOriginalUrl (now x) d url with
    | Some r =>
        (Some (JRow r),
         cache.set x cacheKey (JRow r) (cache.default_ttl (cfg x)) m)
    | None => (None, m)
    end.

(** Create a new short URL. The result carries the position reached in
    the entropy of the process. *)
Definition createShortUrl (x : Ctx) (rnd : Entropy) (pos : nat) (w : World)
    (ip url : string) (expiresIn : option Z) : Response * World * nat :=
  (* Check for suspicious URLs *)
  let '(isSuspicious, m1) := trackSuspiciousUrl x ip url (redis w) in
  if isSuspicious then
    (Fail 400 "URL rejected due to security concerns", mkWorld (db w) m1, pos)
  else
    (* Check if URL already exists in cache or database *)
    let cacheKey := "url:" +:+ url in
    let '(existingUrl, m2) := lookupExisting x url (db w) m1 in
    (* Return existing URL if found *)
    if present existingUrl && negb (given expiresIn) then
      (Existing (existingUrl ≫= get_short_code)
                (existingUrl ≫= get_original_url),
       mkWorld (db w) m2, pos)
    else
      (* Create new short URL *)
      match URLModel.create (now x) rnd pos (db w) url ip expiresIn with
      | (Some newUrl, db', pos') =>
          (* Cache the new URL *)
          let ttl := cache.default_ttl (cfg x) in
          let m3 := cache.set x ("short:" +:+ short_code newUrl) (JRow newUrl) ttl m2 in
          let m4 := cache.set x cacheKey (JRow newUrl) ttl m3 in
          (Created newUrl, mkWorld db' m4, pos')
      | (None, db', pos') =>
          (Fail 500 "Internal server error", mkWorld db' m2, pos')
      end.

(** Redirect to original URL. The analytics row is written by a task
    queued with [setImmediate]; the world returned is the one that task
    leaves. *)
Definition redirectToOriginal (x : Ctx) (w : World)
    (ip : string) (userAgent referer : option string) (shortCode : string)
    : Response * World :=
  (* Try to get from cache first *)
  let cacheKey := "short:" +:+ shortCode in
  let cached := cache.get x cacheKey (redis w) in
  let found :=
    if present cached then Some (cached, redis w)
    else
      (* If not in cache, get from database *)
      match URLModel.findByShortCode (now x) (db w) shortCode with
      | Some r =>
          Some (Some (JRow r),
                cache.set x cacheKey (JRow r) (cache.default_ttl (cfg x)) (redis w))
      | None => None
      end in
  match found with
  | None => (Fail 404 "URL not found or expired", w)
  | Some (url, m') =>
      (Redirect (url ≫= get_original_url),
       mkWorld
         (URLModel.recordAnalytics (now x) (db w) (url ≫= get_id) ip userAgent referer)
         m')
  end.

(** Delete a short URL. *)
Definition deleteShortUrl (x : Ctx) (w : World) (shortCode : string)
    : Response * World :=
  match URLModel.delete (db w) shortCode with
  | (None, db') => (Fail 404 "URL not found", mkWorld db' (redis w))
  | (Some url, db') =>
      (* Remove from cache *)
      let m1 := cache.del x ("short:" +:+ shortCode) (redis w) in
      let m2 := cache.del x ("url:" +:+ original_url url) m1 in
      (Deleted, mkWorld db' m2)
  end.

(** Get URL analytics. *)
Definition getAnalytics (w : World) (shortCode : string) : AnalyticsAnswer :=
match URLModel.getAnalytics (db w) shortCode with
| None => AnalyticsFail 404 "URL not found"
| Some analytics =>
    let u := URLModel.report_row analytics in
    AnalyticsData (short_code u) (original_url u) (created_at u)
      (click_count u) (URLModel.total_clicks analytics)
      (URLModel.unique_visitors analytics) (last_accessed u)
end.

End URLController.

(** ** The application (src/server.js, src/routes/*.js) *)

(** What the memory of one server process holds: the hit table of the
    limiter that was given no store, and its entropy. *)
Record Process := mkProcess {
  hits : gmap string (Z * Z);
  entropy : Entropy;
  drawn : nat
}.

Record Client := mkClient {
  req_ip : string;                  (* req.ip *)
  req_userAgent : option string;    (* req.get('user-agent') *)
  req_referer : option string       (* req.get('referer') *)
}.

Inductive Request :=
| POST_shorten (url : string) (expiresIn : option Z) (isURL : bool)
                                            (* POST /api/shorten *)
| DELETE_code (shortCode : string)          (* DELETE /api/:shortCode *)
| GET_code (shortCode : string).            (* GET /:shortCode *)

(** The rules of [validateUrlCreation] followed by
    [handleValidationErrors], on a body whose [url] is a string and whose
    [expiresIn] is absent or an integer; [isURL] is the verdict of the
    validator library on the shape of the URL. *)
Definition validateUrlCreation (url : string) (expiresIn : option Z)
    (isURL : bool) : Verdict :=
  let url_ok :=
    negb (url =? "")%string && isURL
    && (Z.of_nat (String.length url) <=? 2048) in
  let expires_ok :=
    match expiresIn with
    | Some e => (60 <=? e) && (e <=? 31536000)
    | None => true
    end in
  if url_ok && expires_ok then Next else Halt (Fail 400 "Validation failed").

Module App.

Import RateLimiter URLController.

(** The chain of [router.post('/shorten', ...)]. *)
Definition shorten (x : Ctx) (p : Process) (w : World) (c : Client)
    (url : string) (expiresIn : option Z) (isURL : bool)
    : Response * Process * World :=
  match rateLimit createUrlLimiter x (req_ip c) (hits p) (redis w) with
  | (Halt r, mem, m) => (r, mkProcess mem (entropy p) (drawn p), mkWorld (db w) m)
  | (Next, mem, m) =>
      let p1 := mkProcess mem (entropy p) (drawn p) in
      match abuseDetection x (req_ip c) m with
      | (Halt r, m') => (r, p1, mkWorld (db w) m')
      | (Next, m') =>
          match validateUrlCreation url expiresIn isURL with
          | Halt r => (r, p1, mkWorld (db w) m')
          | Next =>
              let '(r, w', pos') :=
                createShortUrl x (entropy p) (drawn p) (mkWorld (db w) m')
                  (req_ip c) url expiresIn in
              (r, mkProcess mem (entropy p) pos', w')
          end
      end
  end.

(** [app.use(globalLimiter)], then the routers. *)
Definition handle (x : Ctx) (p : Process) (w : World) (c : Client)
    (req : Request) : Response * Process * World :=
  match rateLimit (globalLimiter (cfg x)) x (req_ip c) (hits p) (redis w) with
  | (Halt r, _, m) => (r, p, mkWorld (db w) m)
  | (Next, _, m) =>
      let w1 := mkWorld (db w) m in
      match req with
      | POST_shorten url expiresIn isURL => shorten x p w1 c url expiresIn isURL
      | DELETE_code shortCode =>
          let '(r, w') := deleteShortUrl x w1 shortCode in (r, p, w')
      | GET_code shortCode =>
          let '(r, w') :=
            redirectToOriginal x w1 (req_ip c) (req_userAgent c) (req_referer c) shortCode in
          (r, p, w')
      end
  end.

End App.

(** * Vocabulary of the properties *)

(** The row filter [WHERE short_code = $1] and the update of the soft
    delete, as [URLModel.delete] applies them. *)
Definition hit (shortCode : string) (r : UrlRow) : bool :=
  (short_code r =? shortCode)%string.

Definition flip (shortCode : string) (r : UrlRow) : UrlRow :=
  if hit shortCode r then URLModel.deactivate r else r.

(** The k-th candidate the loop draws when it starts at [pos]. *)
Definition candidate (rnd : Entropy) (pos k : nat) : string :=
  draw alphabet rnd (pos + 7 * k) 7.

Definition isSuspicious (url : string) : bool :=
  existsb (λ pattern, test pattern url) RateLimiter.suspiciousPatterns.

Definition expiry_of (t : Z) (expiresIn : option Z) : option Z :=
  match expiresIn with
  | Some e => if e =? 0 then None else Some (t + e * 1000)
  | None => None
  end.


Definition set_effective (x : Ctx) (ttl : Z) : bool :=
  negb (cache_disabled (cfg x)) && redis_up x && (0 <? ttl).

(** The number a counter key stands for: a missing or expired key counts
    as 0; a key that holds something else is no counter. *)
Definition count_at (t : Z) (key : string) (m : gmap string entry) : option Z :=
  match Redis.get t key m with
  | None => Some 0
  | Some (JNum n) => Some n
  | Some _ => None
  end.

(** Every [short:{code}] entry of the cache is about a code some row of
    the store carries: the handlers only cache rows of the store, and rows
    are never removed. *)
Definition coherent (w : World) : Prop :=
  ∀ c e, redis w !! ("short:" +:+ c) = Some e → URLModel.code_taken (db w) c = true.

Definition BLOCKED_STORED : string :=
  "Your IP has been temporarily blocked due to abuse detection.".

Definition BLOCKED_NOW : string :=
  "Your IP has been blocked due to suspicious activity.".

(** A [blocked:{ip}] entry as [abuseDetection] writes it. *)
Definition block_entry (unblockAt expires : Z) : entry :=
  mkEntry (JBlocked unblockAt) (Some expires).

Record Event := mkEvent {
  ev_ctx : Ctx;
  ev_instance : nat;        (* the instance the load balancer picks *)
  ev_client : Client;
  ev_request : Request
}.

(** The selected instance handles the request; a request sent to no
    instance gets no answer. *)
Definition step (s : list Process * World) (ev : Event)
    : option Response * (list Process * World) :=
  match fst s !! ev_instance ev with
  | Some p =>
      let '(r, p', w') :=
        App.handle (ev_ctx ev) p (snd s) (ev_client ev) (ev_request ev) in
      (Some r, (<[ev_instance ev := p']> (fst s), w'))
  | None => (None, s)
  end.

Fixpoint run (s : list Process * World) (evs : list Event)
    : list (option Response) * (list Process * World) :=
  match evs with
  | [] => ([], s)
  | ev :: evs' =>
      let '(r, s') := step s ev in
      let '(rs, s'') := run s' evs' in
      (r :: rs, s'')
  end.

(** The answers of [cache.increment] to hits at the given instants, one
    after the other, with Redis reachable. *)
Fixpoint increments (c : Config) (key : string) (ttl : Z) (times : list Z)
    (m : gmap string entry) : list Z * gmap string entry :=
  match times with
  | [] => ([], m)
  | t :: ts =>
      let '(n, m') := cache.increment (mkCtx c t true) key ttl m in
      let '(ns, m'') := increments c key ttl ts m' in
      (n :: ns, m'')
  end.



(** How a row may differ from what it was: the trigger counts clicks up
    and stamps the last access, a delete switches [is_active] off; nothing
    else moves. *)
Definition row_evolves (r r' : UrlRow) : Prop :=
  id r' = id r
  ∧ short_code r' = short_code r
  ∧ original_url r' = original_url r
  ∧ created_at r' = created_at r
  ∧ expires_at r' = expires_at r
  ∧ creator_ip r' = creator_ip r
  ∧ click_count r ≤ click_count r'
  ∧ (is_active r = false → is_active r' = false).

(** How the store may differ from what it was: the rows it had are still
    there, in place, each evolved; rows and analytics rows are only added
    at the end. *)
Definition db_evolves (d d' : Database) : Prop :=
  (∃ old new, urls d' = (old ++ new)%list ∧ Forall2 row_evolves (urls d) old)
  ∧ (∃ more, url_analytics d' = (url_analytics d ++ more)%list).

(** The constraints of the schema on [urls]: short codes and ids are
    unique, ids were drawn from the sequence, codes fit VARCHAR(10). *)
Definition store_ok (d : Database) : Prop :=
  NoDup (map short_code (urls d))
  ∧ NoDup (map id (urls d))
  ∧ Forall (λ i, i < urls_id_seq d) (map id (urls d))
  ∧ Forall (λ c, (String.length c <= 10)%nat) (map short_code (urls d)).

(** The accesses recorded for the row with id [i]. *)
Definition accesses (d : Database) (i : Z) : list AnalyticsRow :=
  List.filter (λ a, bool_decide (url_id a = Some i)) (url_analytics d).

(** Every click count is the number of accesses recorded for the row, and
    accesses only refer to ids the sequence has given out. *)
Definition clicks_ok (d : Database) : Prop :=
  Forall (λ r, id r < urls_id_seq d
               ∧ click_count r = Z.of_nat (List.length (accesses d (id r))))
         (urls d)
  ∧ Forall (λ a, ∀ i, url_id a = Some i → i < urls_id_seq d) (url_analytics d).

(** A code that has been soft-deleted for good: some row carries it, none
    of its rows is active, and the cache has no [short:] entry for it. *)
Definition retired (w : World) (shortCode : string) : Prop :=
  URLModel.code_taken (db w) shortCode = true
  ∧ redis w !! ("short:" +:+ shortCode) = None
  ∧ Forall (λ r, short_code r = shortCode → is_active r = false) (urls (db w)).

(** Every [short:{code}] entry of the cache holds an earlier state of a
    row of the store that carries that code. *)
Definition cache_rows_ok (w : World) : Prop :=
  ∀ c e, redis w !! ("short:" +:+ c) = Some e →
    ∃ r r', val e = JRow r ∧ short_code r = c
            ∧ In r' (urls (db w)) ∧ row_evolves r r'.

(** What [clean_expired_urls] does to one row. *)
Definition clean_row (t : Z) (r : UrlRow) : UrlRow :=
  match expires_at r with
  | Some e => if (e <? t) && is_active r then URLModel.deactivate r else r
  | None => r
  end.

(** The part of [retired] that is about the store. *)
Definition dead_rows (k : string) (d : Database) : Prop :=
  URLModel.code_taken d k = true
  ∧ Forall (λ r, short_code r = k → is_active r = false) (urls d).

(** ** Sample inputs *)

Definition cfg_off : Config := mkConfig (Some "false") None None None.

Definition cfg_on : Config := mkConfig (Some "true") None None None.

Definition stride : Entropy := λ n, (n * 7 + 3)%nat.

Definition visitor : Client := mkClient "10.0.0.1" None None.

Definition fresh_process : Process := mkProcess ∅ stride 0.

(** Ten creation requests of one address sent to instance 0. *)
Definition ten_posts : list Event :=
  repeat (mkEvent (mkCtx cfg_on 0 true) 0 visitor
            (POST_shorten "http://a.example/" None true)) 10.

(** Keys that differ in their literal prefix are different. *)
Ltac keys := cbv [String.append]; congruence.

(** * Properties *)

(** ** The cache helpers *)

Section CacheSwitch.

Variables (x : Ctx) (key : string) (m : gmap string entry).
Hypothesis off : cache_disabled (cfg x) = true.

Lemma get_disabled : cache.get x key m = None.
Proof. unfold cache.get. by rewrite off. Qed.

Lemma set_disabled value ttl : cache.set x key value ttl m = m.
Proof. unfold cache.set. by rewrite off. Qed.

End CacheSwitch.

(** C8, as the code has it. With caching switched off, [get] misses and
    [set] leaves the cache as it was; [del] and [increment] do not read the
    switch: they do to the cache exactly what they do with caching on. *)
Theorem disabled_cache_get_set_noop (x : Ctx) (key : string) (value : jval)
    (ttl : Z) (m : gmap string entry) :
  cache_disabled (cfg x) = true →
  cache.get x key m = None
  ∧ cache.set x key value ttl m = m
  ∧ (∀ c', cache.del (mkCtx c' (now x) (redis_up x)) key m = cache.del x key m)
  ∧ (∀ c', cache.increment (mkCtx c' (now x) (redis_up x)) key ttl m
           = cache.increment x key ttl m).
Proof.
  intros off. split; [by apply get_disabled|].
  split; [by apply set_disabled|].
  split; intros c'; reflexivity.
Qed.

Lemma disabled_cache_get_set_noop_witness :
  cache.get (mkCtx cfg_off 0 true) "short:abc1234" ∅ = None
  ∧ cache.set (mkCtx cfg_off 0 true) "short:abc1234" (JNum 1) 86400 ∅ = ∅.
Proof.
  destruct (disabled_cache_get_set_noop (mkCtx cfg_off 0 true) "short:abc1234"
              (JNum 1) 86400 ∅) as (Hg & Hs & _).
  - reflexivity.
  - split; [exact Hg | exact Hs].
Defined.

(** C8, as stated, fails: with [CACHE_ENABLED=false] an increment still
    counts in Redis and answers 1, and a delete still removes the key. *)
Lemma disabled_cache_increment_del_act :
  let x := mkCtx cfg_off 0 true in
  let e := mkEntry (JNum 7) None in
  cache_disabled (cfg x) = true
  ∧ fst (cache.increment x "abuse:1.2.3.4" 3600 ∅) = 1
  ∧ snd (cache.increment x "abuse:1.2.3.4" 3600 ∅) !! "abuse:1.2.3.4"
    = Some (mkEntry (JNum 1) (Some 3600000))
  ∧ ({[ "abuse:1.2.3.4" := e ]} : gmap string entry) !! "abuse:1.2.3.4" = Some e
  ∧ cache.del x "abuse:1.2.3.4" {[ "abuse:1.2.3.4" := e ]} !! "abuse:1.2.3.4" = None.
Proof. vm_compute. repeat split. Qed.

(** ** The code generator *)

Lemma alphabet_size : String.length alphabet = 57%nat.
Proof. reflexivity. Qed.

(** The characters left out of the alphabet are the ones easily confused. *)
Example alphabet_leaves_out :
  Forall (λ c, ¬ In c (list_ascii_of_string alphabet))
         (list_ascii_of_string "IOilo").
Proof.
  repeat constructor; intros H; vm_compute in H;
    repeat (destruct H as [H | H]; [discriminate H|]); exact H.
Qed.

Lemma draw_length abc rnd size : ∀ pos, String.length (draw abc rnd pos size) = size.
Proof. induction size as [|k IH]; intros pos; simpl; [done | by rewrite IH]. Qed.

Lemma symbol_in_alphabet n : In (symbol alphabet n) (list_ascii_of_string alphabet).
Proof.
  unfold symbol. apply nth_In.
  assert (H : List.length (list_ascii_of_string alphabet) = String.length alphabet)
    by reflexivity.
  rewrite H, alphabet_size.
  apply Nat.mod_upper_bound. discriminate.
Qed.

Lemma draw_in_alphabet rnd size : ∀ pos,
  Forall (λ c, In c (list_ascii_of_string alphabet))
         (list_ascii_of_string (draw alphabet rnd pos size)).
Proof.
  induction size as [|k IH]; intros pos; simpl.
  - constructor.
  - constructor; [apply symbol_in_alphabet | apply IH].
Qed.

Lemma generate_loop_S db rnd n pos :
  URLModel.generate_loop db rnd (S n) pos =
  if URLModel.code_taken db (draw alphabet rnd pos 7)
  then URLModel.generate_loop db rnd n (pos + 7)
  else (draw alphabet rnd pos 7, (pos + 7)%nat).
Proof. reflexivity. Qed.

(** What the loop of [generateUniqueShortCode] returns: the first free
    candidate, or the longer code when every candidate is taken. *)
Lemma generate_loop_result db rnd : ∀ attempts pos,
  let code := fst (URLModel.generate_loop db rnd attempts pos) in
  (∃ k, (k < attempts)%nat
        ∧ code = candidate rnd pos k
        ∧ URLModel.code_taken db code = false
        ∧ ∀ j, (j < k)%nat → URLModel.code_taken db (candidate rnd pos j) = true)
  ∨ ((∀ j, (j < attempts)%nat → URLModel.code_taken db (candidate rnd pos j) = true)
     ∧ code = draw alphabet rnd (pos + 7 * attempts) 10).
Proof.
  induction attempts as [|n IH]; intros pos.
  - right. split; [lia|]. simpl. by rewrite Nat.add_0_r.
  - cbv zeta. rewrite generate_loop_S.
    assert (H0 : candidate rnd pos 0 = draw alphabet rnd pos 7).
    { unfold candidate. f_equal. lia. }
    destruct (URLModel.code_taken db (draw alphabet rnd pos 7)) eqn:Htaken.
    + assert (Hshift : ∀ j, candidate rnd (pos + 7) j = candidate rnd pos (S j)).
      { intros j. unfold candidate. f_equal. lia. }
      destruct (IH (pos + 7)%nat) as [(k & Hk & Hc & Hfree & Hbefore) | (Hall & Hc)].
      * left. exists (S k). rewrite <- Hshift. repeat split; [lia | done | done |].
        intros [|j] Hj.
        -- by rewrite H0.
        -- rewrite <- Hshift. apply Hbefore. lia.
      * right. split.
        -- intros [|j] Hj.
           ++ by rewrite H0.
           ++ rewrite <- Hshift. apply Hall. lia.
        -- rewrite Hc. f_equal. lia.
    + left. exists 0%nat. rewrite H0. cbn [fst].
      repeat split; [lia | done |]. intros j Hj. lia.
Qed.

Lemma generate_length db maxAttempts rnd pos :
  let code := fst (URLModel.generateUniqueShortCode db maxAttempts rnd pos) in
  String.length code = 7%nat ∨ String.length code = 10%nat.
Proof.
  intros code. subst code. unfold URLModel.generateUniqueShortCode.
  destruct (generate_loop_result db rnd (Z.to_nat maxAttempts) pos)
    as [(k & _ & -> & _) | (_ & ->)].
  - left. apply draw_length.
  - right. apply draw_length.
Qed.

(** What the look-up of the generator answers, in terms of the rows. *)
Lemma code_taken_spec db c :
  URLModel.code_taken db c = true ↔ ∃ r, In r (urls db) ∧ short_code r = c.
Proof.
  unfold URLModel.code_taken. rewrite existsb_exists.
  split; intros (r & Hin & Heq); exists r; split; try done.
  - by apply String.eqb_eq.
  - by apply String.eqb_eq.
Qed.

Lemma code_free_spec db c :
  URLModel.code_taken db c = false ↔ ∀ r, In r (urls db) → short_code r ≠ c.
Proof.
  split.
  - intros Hfree r Hin Heq.
    assert (URLModel.code_taken db c = true) by (apply code_taken_spec; eauto).
    congruence.
  - intros Hall. destruct (URLModel.code_taken db c) eqn:Ht; [|done].
    apply code_taken_spec in Ht as (r & Hin & Heq). by destruct (Hall r Hin).
Qed.

(** C5. [generateUniqueShortCode] tries up to [maxAttempts] candidates of
    length 7 over the 57-symbol alphabet (5 when called without argument)
    and returns the first one that is the code of no row of the store,
    every candidate before it being the code of some row; when every
    candidate is the code of some row it returns one draw of length 10
    that is not checked. Hence the code returned has length 7 or 10 and
    only symbols of the alphabet. *)
Theorem generateUniqueShortCode_spec (db : Database) (maxAttempts : Z)
    (rnd : Entropy) (pos : nat) :
  let attempts := Z.to_nat maxAttempts in
  let code := fst (URLModel.generateUniqueShortCode db maxAttempts rnd pos) in
  String.length alphabet = 57%nat
  ∧ URLModel.DEFAULT_MAX_ATTEMPTS = 5
  ∧ ((∃ k, (k < attempts)%nat
           ∧ code = candidate rnd pos k
           ∧ (∀ r, In r (urls db) → short_code r ≠ code)
           ∧ ∀ j, (j < k)%nat →
               ∃ r, In r (urls db) ∧ short_code r = candidate rnd pos j)
     ∨ ((∀ j, (j < attempts)%nat →
           ∃ r, In r (urls db) ∧ short_code r = candidate rnd pos j)
        ∧ code = draw alphabet rnd (pos + 7 * attempts) 10))
  ∧ (String.length code = 7%nat ∨ String.length code = 10%nat)
  ∧ Forall (λ c, In c (list_ascii_of_string alphabet)) (list_ascii_of_string code).
Proof.
  intros attempts code.
  pose proof (generate_loop_result db rnd attempts pos) as Hres. cbv zeta in Hres.
  assert (Hcode : code = fst (URLModel.generate_loop db rnd attempts pos))
    by reflexivity.
  rewrite <- Hcode in Hres. clearbody code.
  split; [apply alphabet_size|]. split; [reflexivity|].
  split.
  - destruct Hres as [(k & Hk & Hc & Hfree & Hbefore) | (Hall & Hc)].
    + left. exists k. split; [done|]. split; [done|]. split.
      * by apply code_free_spec.
      * intros j Hj. apply code_taken_spec. by apply Hbefore.
    + right. split; [|done]. intros j Hj. apply code_taken_spec. by apply Hall.
  - destruct Hres as [(k & _ & Hc & _) | (_ & Hc)]; rewrite Hc.
    + split; [left; apply draw_length | apply draw_in_alphabet].
    + split; [right; apply draw_length | apply draw_in_alphabet].
Qed.

(** The longer code is returned without a look at the store: here every
    candidate is the taken code "0000000", and the code of length 10 that
    comes back is a code some row already has. *)
Example longer_code_is_not_checked :
  let taken i c := mkUrlRow i c "http://a.example/" 0 None 0 None "10.0.0.1" true in
  let db := mkDatabase [taken 1 "0000000"; taken 2 "0000000000"] [] 3 1 in
  let code := fst (URLModel.generateUniqueShortCode db 5 (λ _, 0%nat) 0) in
  code = "0000000000" ∧ URLModel.code_taken db code = true.
Proof. vm_compute. split; reflexivity. Qed.

(** C9. The look-up that guards a candidate reads every row of [urls],
    whatever its [is_active]: a code that comes out of an attempt (length
    7) is the code of no row of the store, soft-deleted rows included. *)
Theorem generator_checks_all_rows (db : Database) (maxAttempts : Z)
    (rnd : Entropy) (pos : nat) (r : UrlRow) :
  In r (urls db) →
  String.length (fst (URLModel.generateUniqueShortCode db maxAttempts rnd pos)) = 7%nat →
  URLModel.code_taken db (short_code r) = true
  ∧ short_code r ≠ fst (URLModel.generateUniqueShortCode db maxAttempts rnd pos).
Proof.
  intros Hin Hlen.
  split; [apply code_taken_spec; eauto|].
  unfold URLModel.generateUniqueShortCode in *.
  destruct (generate_loop_result db rnd (Z.to_nat maxAttempts) pos)
    as [(k & _ & _ & Hfree & _) | (_ & Hlong)].
  - eapply code_free_spec in Hfree; eauto.
  - rewrite Hlong, draw_length in Hlen. discriminate.
Qed.

Lemma generator_checks_all_rows_witness :
  let r := mkUrlRow 1 "3AHQXen" "http://a.example/" 0 None 0 None "10.0.0.1" false in
  let db := mkDatabase [r] [] 2 1 in
  is_active r = false
  ∧ candidate stride 0 0 = short_code r
  ∧ short_code r ≠ fst (URLModel.generateUniqueShortCode db 5 stride 0).
Proof.
  intros r db. split; [reflexivity|]. split; [reflexivity|].
  apply (generator_checks_all_rows db 5 stride 0 r).
  - left. reflexivity.
  - vm_compute. reflexivity.
Defined.

(** ** Keys of the cache

    The five families of keys are told apart by their prefix. *)

Lemma short_key_inj a b : "short:" +:+ a = "short:" +:+ b → a = b.
Proof. keys. Qed.

Lemma blocked_key_inj a b : "blocked:" +:+ a = "blocked:" +:+ b → a = b.
Proof. keys. Qed.

Lemma short_not_url a b : "short:" +:+ a ≠ "url:" +:+ b.
Proof. keys. Qed.

Lemma short_not_abuse a b : "short:" +:+ a ≠ "abuse:" +:+ b.
Proof. keys. Qed.

Lemma short_not_blocked a b : "short:" +:+ a ≠ "blocked:" +:+ b.
Proof. keys. Qed.

Lemma short_not_ratelimit a b : "short:" +:+ a ≠ "ratelimit:" +:+ b.
Proof. keys. Qed.

Lemma blocked_not_url a b : "blocked:" +:+ a ≠ "url:" +:+ b.
Proof. keys. Qed.

Lemma blocked_not_abuse a b : "blocked:" +:+ a ≠ "abuse:" +:+ b.
Proof. keys. Qed.

Lemma blocked_not_ratelimit a b : "blocked:" +:+ a ≠ "ratelimit:" +:+ b.
Proof. keys. Qed.

(** ** Soft delete *)

Section Delete.

Variable shortCode : string.

Lemma flip_short_code r : short_code (flip shortCode r) = short_code r.
Proof. unfold flip. by destruct (hit shortCode r). Qed.

Lemma flip_hit r : hit shortCode (flip shortCode r) = hit shortCode r.
Proof. unfold hit. by rewrite flip_short_code. Qed.

Lemma flip_inactive r : hit shortCode r = true → is_active (flip shortCode r) = false.
Proof. unfold flip. by intros ->. Qed.

(** After the update no row with this code is active. *)
Lemma find_active_after_flip t rows :
  List.find (λ r, hit shortCode r && is_active r && not_expired t r)
    (map (flip shortCode) rows)
  = None.
Proof.
  induction rows as [|r rows IH]; simpl; [done|].
  rewrite flip_hit. destruct (hit shortCode r) eqn:Hh; simpl.
  - by rewrite (flip_inactive r Hh).
  - done.
Qed.

Lemma find_hit_after_flip rows :
  List.find (hit shortCode) (map (flip shortCode) rows)
  = option_map (flip shortCode) (List.find (hit shortCode) rows).
Proof.
  induction rows as [|r rows IH]; simpl; [done|].
  rewrite flip_hit. by destruct (hit shortCode r).
Qed.

Lemma find_hit_some rows r :
  In r rows → hit shortCode r = true →
  ∃ r0, List.find (hit shortCode) rows = Some r0 ∧ hit shortCode r0 = true.
Proof.
  induction rows as [|a rows IH]; simpl; [done|].
  intros [-> | Hin] Hr.
  - rewrite Hr. eauto.
  - destruct (hit shortCode a) eqn:Ha; eauto.
Qed.

Lemma delete_urls d :
  urls (snd (URLModel.delete d shortCode)) = map (flip shortCode) (urls d).
Proof. reflexivity. Qed.

Lemma delete_result d :
  fst (URLModel.delete d shortCode)
  = option_map URLModel.deactivate (List.find (hit shortCode) (urls d)).
Proof. reflexivity. Qed.

Lemma findByShortCode_after_delete t d :
  URLModel.findByShortCode t (snd (URLModel.delete d shortCode)) shortCode = None.
Proof.
  unfold URLModel.findByShortCode. rewrite delete_urls.
  apply find_active_after_flip.
Qed.

(** The answer of the handler only depends on whether some row carries
    the code. *)
Lemma deleteShortUrl_response x w :
  fst (URLController.deleteShortUrl x w shortCode)
  = match List.find (hit shortCode) (urls (db w)) with
    | Some _ => Deleted
    | None => Fail 404 "URL not found"
    end.
Proof.
  unfold URLController.deleteShortUrl.
  destruct (URLModel.delete (db w) shortCode) as [res d'] eqn:Hd.
  assert (Hres : res = fst (URLModel.delete (db w) shortCode)) by by rewrite Hd.
  rewrite delete_result in Hres. subst res.
  by destruct (List.find (hit shortCode) (urls (db w))).
Qed.

Lemma deleteShortUrl_db x w :
  db (snd (URLController.deleteShortUrl x w shortCode))
  = snd (URLModel.delete (db w) shortCode).
Proof.
  unfold URLController.deleteShortUrl.
  destruct (URLModel.delete (db w) shortCode) as [[res|] d'] eqn:Hd; reflexivity.
Qed.

End Delete.

(** C10. Deleting a code whose row is already soft-deleted succeeds
    again: the update finds the row whatever its [is_active], hands it
    back, and the handler answers 200, not 404. A delete repeated on any
    code gets the answer the first delete got. *)
Theorem delete_of_soft_deleted_succeeds (x : Ctx) (w : World) (r : UrlRow) :
  In r (urls (db w)) →
  is_active r = false →
  (∃ url, fst (URLModel.delete (db w) (short_code r)) = Some url
          ∧ short_code url = short_code r
          ∧ is_active url = false)
  ∧ fst (URLController.deleteShortUrl x w (short_code r)) = Deleted
  ∧ status (fst (URLController.deleteShortUrl x w (short_code r))) = 200
  ∧ ∀ x' shortCode,
      fst (URLController.deleteShortUrl x'
             (snd (URLController.deleteShortUrl x w shortCode)) shortCode)
      = fst (URLController.deleteShortUrl x w shortCode).
Proof.
  intros Hin Hoff.
  destruct (find_hit_some (short_code r) (urls (db w)) r Hin) as (r0 & Hfind & Hr0).
  { apply String.eqb_refl. }
  assert (Hresp : fst (URLController.deleteShortUrl x w (short_code r)) = Deleted).
  { rewrite deleteShortUrl_response. by rewrite Hfind. }
  split; [|split; [done|split; [by rewrite Hresp|]]].
  - exists (URLModel.deactivate r0). rewrite delete_result, Hfind.
    split; [done|]. split; [|done].
    simpl. by apply String.eqb_eq.
  - intros x' shortCode.
    rewrite !deleteShortUrl_response, deleteShortUrl_db, delete_urls.
    rewrite find_hit_after_flip.
    destruct (List.find (hit shortCode) (urls (db w))); reflexivity.
Qed.

Lemma delete_of_soft_deleted_succeeds_witness :
  let r := mkUrlRow 1 "3AHQXen" "http://a.example/" 0 None 0 None "10.0.0.1" false in
  let w := mkWorld (mkDatabase [r] [] 2 1) ∅ in
  fst (URLController.deleteShortUrl (mkCtx cfg_on 5000 true) w "3AHQXen") = Deleted.
Proof.
  intros r w.
  destruct (delete_of_soft_deleted_succeeds (mkCtx cfg_on 5000 true) w r)
    as (_ & Hdel & _).
  - left. reflexivity.
  - reflexivity.
  - exact Hdel.
Defined.

(** C6. Once [deleteShortUrl] has answered 200 with Redis reachable, the
    entries [short:{shortCode}] and [url:{original_url}] are gone from the
    cache, no row with the code is active, and resolving the code answers
    404, whatever the cache held before the delete. *)
Theorem resolve_after_delete_not_found (x x' : Ctx) (w : World)
    (shortCode ip : string) (userAgent referer : option string) :
  redis_up x = true →
  fst (URLController.deleteShortUrl x w shortCode) = Deleted →
  let w' := snd (URLController.deleteShortUrl x w shortCode) in
  redis w' !! ("short:" +:+ shortCode) = None
  ∧ (∃ url, fst (URLModel.delete (db w) shortCode) = Some url
            ∧ redis w' !! ("url:" +:+ original_url url) = None)
  ∧ (∀ r, In r (urls (db w')) → short_code r = shortCode → is_active r = false)
  ∧ URLController.redirectToOriginal x' w' ip userAgent referer shortCode
    = (Fail 404 "URL not found or expired", w').
Proof.
  intros Hup Hdel w'.
  assert (Hdb : db w' = snd (URLModel.delete (db w) shortCode))
    by apply deleteShortUrl_db.
  assert (Hshort : redis w' !! ("short:" +:+ shortCode) = None
          ∧ ∃ url, fst (URLModel.delete (db w) shortCode) = Some url
                   ∧ redis w' !! ("url:" +:+ original_url url) = None).
  { subst w'. revert Hdel. unfold URLController.deleteShortUrl.
    destruct (URLModel.delete (db w) shortCode) as [[url|] d']; [|done].
    intros _. unfold cache.del, Redis.del. rewrite Hup. cbn [snd fst redis].
    split.
    - rewrite lookup_delete_ne by (apply not_eq_sym, short_not_url).
      apply lookup_delete_eq.
    - exists url. split; [done|]. apply lookup_delete_eq. }
  destruct Hshort as (Hs & Hu).
  split; [done|]. split; [done|]. split.
  - intros r Hin Hcode. rewrite Hdb, delete_urls in Hin.
    apply in_map_iff in Hin as (r0 & <- & _).
    rewrite flip_short_code in Hcode.
    apply flip_inactive. by apply String.eqb_eq.
  - unfold URLController.redirectToOriginal.
    assert (Hget : cache.get x' ("short:" +:+ shortCode) (redis w') = None).
    { unfold cache.get, Redis.get. rewrite Hs.
      by destruct (cache_disabled _), (redis_up x'). }
    rewrite Hget. cbn [RateLimiter.present].
    by rewrite Hdb, findByShortCode_after_delete.
Qed.

Lemma resolve_after_delete_not_found_witness :
  let r := mkUrlRow 1 "3AHQXen" "http://a.example/" 0 None 0 None "10.0.0.1" true in
  let cached := mkEntry (JRow r) (Some 86400000) in
  let w := mkWorld (mkDatabase [r] [] 2 1)
             {[ "short:3AHQXen" := cached; "url:http://a.example/" := cached ]} in
  let x := mkCtx cfg_on 5000 true in
  fst (URLController.redirectToOriginal x w "10.0.0.2" None None "3AHQXen")
  = Redirect (Some "http://a.example/")
  ∧ fst (URLController.redirectToOriginal x
           (snd (URLController.deleteShortUrl x w "3AHQXen"))
           "10.0.0.2" None None "3AHQXen")
    = Fail 404 "URL not found or expired".
Proof.
  intros r cached w x. split; [vm_compute; reflexivity|].
  destruct (resolve_after_delete_not_found x x w "3AHQXen" "10.0.0.2" None None)
    as (_ & _ & _ & Hres).
  - reflexivity.
  - vm_compute. reflexivity.
  - rewrite Hres. reflexivity.
Defined.

(** ** Writes of the cache helpers, key by key *)

Lemma cache_set_eq x key value ttl m :
  cache.set x key value ttl m
  = if set_effective x ttl
    then <[key := mkEntry value (Some (now x + ttl * 1000))]> m
    else m.
Proof.
  unfold cache.set, set_effective, Redis.setEx.
  by destruct (cache_disabled (cfg x)), (redis_up x), (0 <? ttl).
Qed.

Lemma cache_set_other x key value ttl m k :
  k ≠ key → cache.set x key value ttl m !! k = m !! k.
Proof.
  intros Hne. rewrite cache_set_eq.
  destruct (set_effective x ttl); [|done]. by rewrite lookup_insert_ne.
Qed.

Lemma cache_get_some x key m v :
  cache.get x key m = Some v →
  cache_disabled (cfg x) = false ∧ redis_up x = true
  ∧ ∃ e, m !! key = Some e ∧ Redis.live (now x) e = true ∧ val e = v.
Proof.
  unfold cache.get, Redis.get.
  destruct (cache_disabled (cfg x)); [done|].
  destruct (redis_up x); [|done].
  destruct (m !! key) as [e|]; [|done].
  destruct (Redis.live (now x) e) eqn:Hl; [|done].
  intros [= <-]. repeat split. by exists e.
Qed.

Lemma redis_incr_other t key m n m' k :
  Redis.incr t key m = Some (n, m') → k ≠ key → m' !! k = m !! k.
Proof.
  unfold Redis.incr. intros H Hne.
  destruct (m !! key) as [e|].
  - destruct (Redis.live t e).
    + destruct (val e); simplify_eq. by rewrite lookup_insert_ne.
    + simplify_eq. by rewrite lookup_insert_ne.
  - simplify_eq. by rewrite lookup_insert_ne.
Qed.

Lemma redis_expire_other t key ttl m k :
  k ≠ key → Redis.expire t key ttl m !! k = m !! k.
Proof.
  unfold Redis.expire. intros Hne.
  destruct (m !! key) as [e|]; [|done].
  destruct (Redis.live t e); [|done].
  destruct (0 <? ttl).
  - by rewrite lookup_insert_ne.
  - by rewrite lookup_delete_ne.
Qed.

Lemma cache_increment_other x key ttl m k :
  k ≠ key → snd (cache.increment x key ttl m) !! k = m !! k.
Proof.
  intros Hne. unfold cache.increment.
  destruct (redis_up x); [|done].
  destruct (Redis.incr (now x) key m) as [[n m']|] eqn:Hi; [|done].
  destruct (n =? 1); cbn [snd].
  - rewrite redis_expire_other by done. eapply redis_incr_other; eauto.
  - eapply redis_incr_other; eauto.
Qed.

Lemma cache_del_other x key m k :
  k ≠ key → cache.del x key m !! k = m !! k.
Proof.
  intros Hne. unfold cache.del, Redis.del.
  destruct (redis_up x); [|done]. by rewrite lookup_delete_ne.
Qed.

(** ** The abuse counter *)

Lemma cache_increment_counts x key ttl m n :
  redis_up x = true →
  0 < ttl →
  count_at (now x) key m = Some n →
  fst (cache.increment x key ttl m) = n + 1
  ∧ Redis.get (now x) key (snd (cache.increment x key ttl m)) = Some (JNum (n + 1)).
Proof.
  intros Hup Httl. unfold count_at, cache.increment, Redis.get, Redis.incr.
  rewrite Hup.
  assert (Hfresh : ∀ m0 : gmap string entry,
    Redis.get (now x) key
      (Redis.expire (now x) key ttl (<[key := mkEntry (JNum 1) None]> m0))
    = Some (JNum 1)).
  { intros m0. unfold Redis.get, Redis.expire.
    rewrite lookup_insert_eq. cbn [Redis.live expiry val].
    replace (0 <? ttl) with true by (symmetry; apply Z.ltb_lt; lia).
    rewrite lookup_insert_eq. cbn [Redis.live expiry val].
    replace (now x <? now x + ttl * 1000) with true
      by (symmetry; apply Z.ltb_lt; lia).
    done. }
  destruct (m !! key) as [e|] eqn:He.
  - destruct (Redis.live (now x) e) eqn:Hl.
    + destruct (val e) as [k| |] eqn:Hv; try done.
      intros [= ->].
      assert (Hl' : ∀ v, Redis.live (now x) (mkEntry v (expiry e)) = true)
        by (intros v; exact Hl).
      destruct (n + 1 =? 1) eqn:H1; cbn [fst snd]; (split; [done|]).
      * apply Z.eqb_eq in H1. rewrite H1.
        unfold Redis.get, Redis.expire.
        rewrite lookup_insert_eq, Hl'.
        replace (0 <? ttl) with true by (symmetry; apply Z.ltb_lt; lia).
        rewrite lookup_insert_eq. cbn [Redis.live expiry val].
        replace (now x <? now x + ttl * 1000) with true
          by (symmetry; apply Z.ltb_lt; lia).
        done.
      * unfold Redis.get. by rewrite lookup_insert_eq, Hl'.
    + intros [= <-]. cbn [fst snd Z.add Z.eqb Pos.eqb]. split; [done|]. apply Hfresh.
  - intros [= <-]. cbn [fst snd Z.add Z.eqb Pos.eqb]. split; [done|]. apply Hfresh.
Qed.

(** The patterns at work: letters match in either case, [$] anchors at the
    end of the URL, and an ordinary address passes. *)
Example suspicious_samples :
  isSuspicious "http://files.example/setup.EXE" = true
  ∧ isSuspicious "http://files.example/setup.exe?download=1" = false
  ∧ isSuspicious "https://BIT.LY/3xYz" = true
  ∧ isSuspicious "https://tinyurl.com/abc" = true
  ∧ isSuspicious "http://Phishing.example/login" = true
  ∧ isSuspicious "https://example.com/articles/42" = false.
Proof. vm_compute. repeat split. Qed.

Lemma trackSuspiciousUrl_eq x ip url m :
  RateLimiter.trackSuspiciousUrl x ip url m
  = if isSuspicious url
    then (true, snd (cache.increment x ("abuse:" +:+ ip) 3600 m))
    else (false, m).
Proof. reflexivity. Qed.

(** C1, as the code has it. A creation request whose URL matches one of
    the suspicious patterns is answered at once with 400 'URL rejected due
    to security concerns': nothing is looked up or stored, no entropy is
    used, and the cache changes at the key [abuse:{ip}] only, whose count
    goes up by one when Redis is reachable. *)
Theorem suspicious_url_rejected_at_once (x : Ctx) (rnd : Entropy) (pos : nat)
    (w : World) (ip url : string) (expiresIn : option Z) :
  isSuspicious url = true →
  let out := URLController.createShortUrl x rnd pos w ip url expiresIn in
  fst (fst out) = Fail 400 "URL rejected due to security concerns"
  ∧ status (fst (fst out)) = 400
  ∧ db (snd (fst out)) = db w
  ∧ snd out = pos
  ∧ (∀ k, k ≠ "abuse:" +:+ ip → redis (snd (fst out)) !! k = redis w !! k)
  ∧ (redis_up x = true →
     ∀ n, count_at (now x) ("abuse:" +:+ ip) (redis w) = Some n →
          count_at (now x) ("abuse:" +:+ ip) (redis (snd (fst out))) = Some (n + 1)).
Proof.
  intros Hsus out. subst out. unfold URLController.createShortUrl.
  rewrite trackSuspiciousUrl_eq, Hsus. cbn [fst snd db redis status].
  repeat split.
  - intros k Hk. by apply cache_increment_other.
  - intros Hup n Hn.
    destruct (cache_increment_counts x ("abuse:" +:+ ip) 3600 (redis w) n)
      as (_ & Hget); [done | lia | done |].
    unfold count_at. by rewrite Hget.
Qed.

Lemma suspicious_url_rejected_at_once_witness :
  fst (fst (URLController.createShortUrl (mkCtx cfg_on 0 true) stride 0
              (mkWorld (mkDatabase [] [] 1 1) ∅)
              "10.0.0.1" "http://files.example/setup.EXE" None))
  = Fail 400 "URL rejected due to security concerns".
Proof.
  apply (suspicious_url_rejected_at_once (mkCtx cfg_on 0 true) stride 0
           (mkWorld (mkDatabase [] [] 1 1) ∅)
           "10.0.0.1" "http://files.example/setup.EXE" None).
  reflexivity.
Defined.

(** C1, as stated, fails: the first request with a suspicious URL is
    already refused, and no row is written for it. *)
Lemma suspicious_url_does_not_proceed :
  let out := URLController.createShortUrl (mkCtx cfg_on 0 true) stride 0
               (mkWorld (mkDatabase [] [] 1 1) ∅)
               "10.0.0.1" "http://malware.example/" None in
  isSuspicious "http://malware.example/" = true
  ∧ status (fst (fst out)) = 400
  ∧ urls (db (snd (fst out))) = []
  ∧ count_at 0 "abuse:10.0.0.1" (redis (snd (fst out))) = Some 1.
Proof. vm_compute. repeat split. Qed.

(** ** Creation *)

Lemma create_some t rnd pos d url ip expiresIn r d' pos' :
  URLModel.create t rnd pos d url ip expiresIn = (Some r, d', pos') →
  r = mkUrlRow (urls_id_seq d)
        (fst (URLModel.generateUniqueShortCode d URLModel.DEFAULT_MAX_ATTEMPTS rnd pos))
        url t (expiry_of t expiresIn) 0 None ip true
  ∧ URLModel.code_taken d (short_code r) = false
  ∧ urls d' = (urls d ++ [r])%list.
Proof.
  unfold URLModel.create, URLModel.insert_url. fold (expiry_of t expiresIn).
  destruct (URLModel.generateUniqueShortCode d URLModel.DEFAULT_MAX_ATTEMPTS rnd pos)
    as [shortCode p1] eqn:Hgen.
  destruct (URLModel.code_taken d shortCode) eqn:Htaken; cbn [orb]; [done|].
  destruct (_ || _); [done|].
  intros [= <- <- <-]. cbn [fst short_code urls]. done.
Qed.

Lemma create_none t rnd pos d url ip expiresIn d' pos' :
  URLModel.create t rnd pos d url ip expiresIn = (None, d', pos') →
  urls d' = urls d
  ∧ let code := fst (URLModel.generateUniqueShortCode d
                       URLModel.DEFAULT_MAX_ATTEMPTS rnd pos) in
    URLModel.code_taken d code = true
    ∨ (10 < String.length code)%nat
    ∨ (45 < String.length ip)%nat.
Proof.
  unfold URLModel.create, URLModel.insert_url.
  destruct (URLModel.generateUniqueShortCode d URLModel.DEFAULT_MAX_ATTEMPTS rnd pos)
    as [shortCode p1] eqn:Hgen. cbn [fst].
  destruct (URLModel.code_taken d shortCode) eqn:Htaken; cbn [orb].
  - intros [= <- <-]. auto.
  - destruct (10 <? _) eqn:H10; cbn [orb].
    + intros [= <- <-]. split; [done|]. right; left. apply Z.ltb_lt in H10. lia.
    + destruct (45 <? _) eqn:H45; [|done].
      intros [= <- <-]. split; [done|]. right; right. apply Z.ltb_lt in H45. lia.
Qed.

Lemma find_app_fresh {A} (P : A → bool) l a :
  (∀ b, In b l → P b = false) →
  List.find P (l ++ [a])%list = if P a then Some a else None.
Proof.
  induction l as [|b l IH]; intros Hall; simpl; [done|].
  rewrite (Hall b) by (by left). apply IH. intros c Hc. apply Hall. by right.
Qed.

Lemma findByShortCode_fresh t d d' r :
  URLModel.code_taken d (short_code r) = false →
  urls d' = (urls d ++ [r])%list →
  URLModel.findByShortCode t d' (short_code r)
  = if is_active r && not_expired t r then Some r else None.
Proof.
  intros Hfree Hurls. unfold URLModel.findByShortCode. rewrite Hurls.
  rewrite find_app_fresh.
  - by rewrite String.eqb_refl.
  - intros b Hb. eapply code_free_spec in Hfree; eauto.
    apply String.eqb_neq in Hfree. by rewrite Hfree.
Qed.

Lemma lookupExisting_other x url d m k :
  k ≠ "url:" +:+ url →
  snd (URLController.lookupExisting x url d m) !! k = m !! k.
Proof.
  intros Hne. unfold URLController.lookupExisting.
  destruct (RateLimiter.present _); [done|].
  destruct (URLModel.findByOriginalUrl _ _ _); [|done].
  by apply cache_set_other.
Qed.


(** What a 201 tells about the call that gave it. *)
Lemma createShortUrl_created x rnd pos w ip url expiresIn r w1 pos1 :
  URLController.createShortUrl x rnd pos w ip url expiresIn = (Created r, w1, pos1) →
  let lk := URLController.lookupExisting x url (db w) (redis w) in
  isSuspicious url = false
  ∧ RateLimiter.present (fst lk) && negb (URLController.given expiresIn) = false
  ∧ URLModel.create (now x) rnd pos (db w) url ip expiresIn = (Some r, db w1, pos1)
  ∧ redis w1
    = cache.set x ("url:" +:+ url) (JRow r) (cache.default_ttl (cfg x))
        (cache.set x ("short:" +:+ short_code r) (JRow r)
           (cache.default_ttl (cfg x)) (snd lk)).
Proof.
  unfold URLController.createShortUrl. rewrite trackSuspiciousUrl_eq.
  destruct (isSuspicious url); [done|].
  destruct (URLController.lookupExisting x url (db w) (redis w))
    as [existingUrl m2] eqn:Hlk.
  cbn [fst snd].
  destruct (RateLimiter.present existingUrl && negb (URLController.given expiresIn));
    [done|].
  destruct (URLModel.create _ _ _ _ _ _ _) as [[[newUrl|] d'] p'] eqn:Hc; [|done].
  intros [= <- <- <-]. done.
Qed.

(** ** Resolution *)

Section Redirect.

Variables (x : Ctx) (w : World) (ip : string) (userAgent referer : option string).
Variable shortCode : string.

Lemma redirect_hit r :
  cache.get x ("short:" +:+ shortCode) (redis w) = Some (JRow r) →
  fst (URLController.redirectToOriginal x w ip userAgent referer shortCode)
  = Redirect (Some (original_url r)).
Proof. unfold URLController.redirectToOriginal. by intros ->. Qed.

Lemma redirect_miss :
  cache.get x ("short:" +:+ shortCode) (redis w) = None →
  URLController.redirectToOriginal x w ip userAgent referer shortCode
  = match URLModel.findByShortCode (now x) (db w) shortCode with
    | Some r =>
        (Redirect (Some (original_url r)),
         mkWorld
           (URLModel.recordAnalytics (now x) (db w) (Some (id r)) ip userAgent referer)
           (cache.set x ("short:" +:+ shortCode) (JRow r)
              (cache.default_ttl (cfg x)) (redis w)))
    | None => (Fail 404 "URL not found or expired", w)
    end.
Proof.
  unfold URLController.redirectToOriginal. intros ->. cbn [RateLimiter.present].
  by destruct (URLModel.findByShortCode _ _ _).
Qed.

End Redirect.

(** The [short:{code}] entry right after a 201. *)
Lemma created_short_entry x rnd pos w ip url expiresIn r w1 pos1 :
  coherent w →
  URLController.createShortUrl x rnd pos w ip url expiresIn = (Created r, w1, pos1) →
  redis w1 !! ("short:" +:+ short_code r)
  = if set_effective x (cache.default_ttl (cfg x))
    then Some (mkEntry (JRow r) (Some (now x + cache.default_ttl (cfg x) * 1000)))
    else None.
Proof.
  intros Hcoh Hc.
  apply createShortUrl_created in Hc as (_ & _ & Hcreate & ->).
  apply create_some in Hcreate as (_ & Hfree & _).
  rewrite cache_set_other by apply short_not_url.
  rewrite cache_set_eq.
  destruct (set_effective x _).
  - by rewrite lookup_insert_eq.
  - rewrite lookupExisting_other by apply short_not_url.
    destruct (redis w !! _) as [e|] eqn:He; [|done].
    apply Hcoh in He. congruence.
Qed.


Lemma coherent_empty d : coherent (mkWorld d ∅).
Proof. intros c e H. cbn [redis] in H. by rewrite lookup_empty in H. Qed.



(** ** Reuse of an earlier shortening *)




















(** ** The abuse guard *)

Section Guard.

Variables (x : Ctx) (ip : string) (m : gmap string entry).
Hypothesis on : cache_disabled (cfg x) = false.
Hypothesis up : redis_up x = true.

(** The guard meets a live entry: it answers with what the entry holds. *)
Lemma abuseDetection_blocked e :
  m !! ("blocked:" +:+ ip) = Some e →
  Redis.live (now x) e = true →
  truthy (val e) = true →
  RateLimiter.abuseDetection x ip m
  = (Halt (Blocked BLOCKED_STORED (get_unblockAt (val e))), m).
Proof.
  intros He Hl Ht. unfold RateLimiter.abuseDetection, cache.get, Redis.get.
  rewrite on, up, He, Hl. cbn [RateLimiter.present]. by rewrite Ht.
Qed.

(** The guard meets a counter above 50 and no entry: it writes one. *)
Lemma abuseDetection_blocks n :
  Redis.get (now x) ("blocked:" +:+ ip) m = None →
  Redis.get (now x) ("abuse:" +:+ ip) m = Some (JNum n) →
  50 < n →
  RateLimiter.abuseDetection x ip m
  = (Halt (Blocked BLOCKED_NOW (Some (now x + 3600000))),
     <[("blocked:" +:+ ip) := block_entry (now x + 3600000) (now x + 3600 * 1000)]> m).
Proof.
  intros Hb Hn Hlt. unfold RateLimiter.abuseDetection, cache.get.
  rewrite on, up, Hb, Hn. cbn [RateLimiter.present RateLimiter.exceeds].
  replace (50 <? n) with true by (symmetry; by apply Z.ltb_lt).
  rewrite cache_set_eq. unfold set_effective. rewrite on, up. done.
Qed.

End Guard.

(** No handler overwrites or removes a live [blocked:{ip}] entry. *)

Lemma abuseDetection_keeps_block x ip' m ip e :
  m !! ("blocked:" +:+ ip) = Some e →
  Redis.live (now x) e = true →
  truthy (val e) = true →
  snd (RateLimiter.abuseDetection x ip' m) !! ("blocked:" +:+ ip) = Some e.
Proof.
  intros He Hl Ht. unfold RateLimiter.abuseDetection.
  destruct (RateLimiter.present (cache.get x ("blocked:" +:+ ip') m)) eqn:Hp; [done|].
  destruct (RateLimiter.exceeds _ _) eqn:Hex; [|done].
  cbn [snd]. destruct (decide (ip' = ip)) as [->|Hne].
  - exfalso. revert Hp Hex. unfold cache.get, Redis.get.
    destruct (cache_disabled (cfg x)); [done|].
    destruct (redis_up x); [|done].
    rewrite He, Hl. cbn [RateLimiter.present]. by rewrite Ht.
  - rewrite cache_set_other; [done|]. intros Heq. by apply blocked_key_inj in Heq.
Qed.

Lemma rateLimit_keeps_block o x ip' mem m k :
  (∀ s key, store o = Some s →
     snd (store_increment s x key m) !! k = m !! k) →
  snd (rateLimit o x ip' mem m) !! k = m !! k.
Proof.
  intros Hstore. unfold rateLimit.
  destruct (store o) as [s|] eqn:Hs.
  - specialize (Hstore s ip' eq_refl).
    destruct (store_increment s x ip' m) as [n m'].
    by destruct (max o <? n).
  - destruct (MemoryStore.increment _ _ _ _) as [n mem'].
    by destruct (max o <? n).
Qed.

Lemma globalLimiter_keeps_block x ip' mem m ip :
  snd (rateLimit (RateLimiter.globalLimiter (cfg x)) x ip' mem m) !! ("blocked:" +:+ ip)
  = m !! ("blocked:" +:+ ip).
Proof.
  apply rateLimit_keeps_block. intros s key [= <-]. cbn [store_increment].
  apply cache_increment_other, blocked_not_ratelimit.
Qed.

Lemma createUrlLimiter_keeps_redis x ip' mem m :
  snd (rateLimit RateLimiter.createUrlLimiter x ip' mem m) = m.
Proof.
  unfold rateLimit. cbn [store RateLimiter.createUrlLimiter].
  destruct (MemoryStore.increment _ _ _ _) as [n mem'].
  by destruct (_ <? n).
Qed.

Lemma createShortUrl_keeps_block x rnd pos w ip' url expiresIn ip :
  redis (snd (fst (URLController.createShortUrl x rnd pos w ip' url expiresIn)))
    !! ("blocked:" +:+ ip)
  = redis w !! ("blocked:" +:+ ip).
Proof.
  unfold URLController.createShortUrl. rewrite trackSuspiciousUrl_eq.
  destruct (isSuspicious url).
  - cbn [fst snd redis]. apply cache_increment_other, blocked_not_abuse.
  - destruct (URLController.lookupExisting x url (db w) (redis w))
      as [existingUrl m2] eqn:Hlk.
    assert (Hm2 : m2 !! ("blocked:" +:+ ip) = redis w !! ("blocked:" +:+ ip)).
    { replace m2 with (snd (URLController.lookupExisting x url (db w) (redis w)))
        by (by rewrite Hlk).
      apply lookupExisting_other, blocked_not_url. }
    destruct (_ && _); [done|].
    destruct (URLModel.create _ _ _ _ _ _ _) as [[[newUrl|] d'] p']; [|done].
    cbn [fst snd redis].
    rewrite cache_set_other by apply blocked_not_url.
    rewrite cache_set_other by (apply not_eq_sym, short_not_blocked).
    done.
Qed.

Lemma redirectToOriginal_keeps_block x w ip' ua ref shortCode ip :
  redis (snd (URLController.redirectToOriginal x w ip' ua ref shortCode))
    !! ("blocked:" +:+ ip)
  = redis w !! ("blocked:" +:+ ip).
Proof.
  unfold URLController.redirectToOriginal.
  destruct (RateLimiter.present _); [done|].
  destruct (URLModel.findByShortCode _ _ _); [|done].
  cbn [snd redis]. apply cache_set_other, not_eq_sym, short_not_blocked.
Qed.

Lemma deleteShortUrl_keeps_block x w shortCode ip :
  redis (snd (URLController.deleteShortUrl x w shortCode)) !! ("blocked:" +:+ ip)
  = redis w !! ("blocked:" +:+ ip).
Proof.
  unfold URLController.deleteShortUrl.
  destruct (URLModel.delete (db w) shortCode) as [[url|] d']; [|done].
  cbn [snd redis].
  rewrite cache_del_other by apply blocked_not_url.
  apply cache_del_other, not_eq_sym, short_not_blocked.
Qed.

Lemma shorten_keeps_block x p w c url expiresIn isURL ip e :
  redis w !! ("blocked:" +:+ ip) = Some e →
  Redis.live (now x) e = true →
  truthy (val e) = true →
  redis (snd (App.shorten x p w c url expiresIn isURL)) !! ("blocked:" +:+ ip) = Some e.
Proof.
  intros He Hl Ht. unfold App.shorten.
  pose proof (createUrlLimiter_keeps_redis x (req_ip c) (hits p) (redis w)) as Hlim.
  destruct (rateLimit RateLimiter.createUrlLimiter x (req_ip c) (hits p) (redis w))
    as [[v mem] m]. cbn [snd] in Hlim. subst m.
  destruct v as [|r]; [|done].
  pose proof (abuseDetection_keeps_block x (req_ip c) (redis w) ip e He Hl Ht) as Hab.
  destruct (RateLimiter.abuseDetection x (req_ip c) (redis w)) as [v m']. cbn [snd] in Hab.
  destruct v as [|r]; [|done].
  destruct (validateUrlCreation url expiresIn isURL); [|done].
  pose proof (createShortUrl_keeps_block x (entropy p) (drawn p)
                (mkWorld (db w) m') (req_ip c) url expiresIn ip) as Hcr.
  destruct (URLController.createShortUrl _ _ _ _ _ _ _) as [[r w'] pos'].
  cbn [fst snd redis] in *. by rewrite Hcr.
Qed.

Lemma handle_keeps_block x p w c req ip e :
  redis w !! ("blocked:" +:+ ip) = Some e →
  Redis.live (now x) e = true →
  truthy (val e) = true →
  redis (snd (App.handle x p w c req)) !! ("blocked:" +:+ ip) = Some e.
Proof.
  intros He Hl Ht. unfold App.handle.
  pose proof (globalLimiter_keeps_block x (req_ip c) (hits p) (redis w) ip) as Hg.
  destruct (rateLimit (RateLimiter.globalLimiter (cfg x)) x (req_ip c) (hits p) (redis w))
    as [[v mem] m]. cbn [snd] in Hg. rewrite He in Hg.
  destruct v as [|r]; [|done].
  destruct req as [url expiresIn isURL | shortCode | shortCode].
  - by apply shorten_keeps_block.
  - pose proof (deleteShortUrl_keeps_block x (mkWorld (db w) m) shortCode ip) as Hd.
    destruct (URLController.deleteShortUrl _ _ _) as [r w'].
    cbn [snd redis] in *. by rewrite Hd.
  - pose proof (redirectToOriginal_keeps_block x (mkWorld (db w) m) (req_ip c)
                  (req_userAgent c) (req_referer c) shortCode ip) as Hr.
    destruct (URLController.redirectToOriginal _ _ _ _ _ _) as [r w'].
    cbn [snd redis] in *. by rewrite Hr.
Qed.

(** A creation request of a blocked address does not get past the guard. *)
Lemma shorten_blocked x p w c url expiresIn isURL e :
  cache_disabled (cfg x) = false →
  redis_up x = true →
  redis w !! ("blocked:" +:+ req_ip c) = Some e →
  Redis.live (now x) e = true →
  truthy (val e) = true →
  let out := App.shorten x p w c url expiresIn isURL in
  (fst (fst out) = Blocked BLOCKED_STORED (get_unblockAt (val e))
   ∨ fst (fst out) = Fail 429 (message RateLimiter.createUrlLimiter))
  ∧ snd out = w.
Proof.
  intros Hon Hup He Hl Ht out. subst out. unfold App.shorten.
  pose proof (createUrlLimiter_keeps_redis x (req_ip c) (hits p) (redis w)) as Hlim.
  unfold rateLimit in *. cbn [store RateLimiter.createUrlLimiter] in *.
  destruct (MemoryStore.increment _ _ _ _) as [n mem'].
  cbn [max message RateLimiter.createUrlLimiter].
  destruct (10 <? n).
  - split; [by right|]. by destruct w.
  - rewrite (abuseDetection_blocked x (req_ip c) (redis w) Hon Hup e He Hl Ht).
    split; [by left|]. by destruct w.
Qed.

(** ** Server instances and traces of requests *)

Lemma step_keeps_block s ev ip e :
  redis (snd s) !! ("blocked:" +:+ ip) = Some e →
  Redis.live (now (ev_ctx ev)) e = true →
  truthy (val e) = true →
  redis (snd (snd (step s ev))) !! ("blocked:" +:+ ip) = Some e.
Proof.
  intros He Hl Ht. unfold step.
  destruct (fst s !! ev_instance ev) as [p|]; [|done].
  pose proof (handle_keeps_block (ev_ctx ev) p (snd s) (ev_client ev)
                (ev_request ev) ip e He Hl Ht) as Hk.
  destruct (App.handle _ _ _ _ _) as [[r p'] w']. done.
Qed.

Lemma run_keeps_block evs : ∀ s ip e,
  redis (snd s) !! ("blocked:" +:+ ip) = Some e →
  truthy (val e) = true →
  Forall (λ ev, Redis.live (now (ev_ctx ev)) e = true) evs →
  redis (snd (snd (run s evs))) !! ("blocked:" +:+ ip) = Some e.
Proof.
  induction evs as [|ev evs IH]; intros s ip e He Ht Hall; [done|].
  inversion Hall as [|? ? Hev Hrest]; subst.
  simpl. pose proof (step_keeps_block s ev ip e He Hev Ht) as Hs.
  destruct (step s ev) as [r s'].
  specialize (IH s' ip e Hs Ht Hrest).
  destruct (run s' evs) as [rs s'']. done.
Qed.

Lemma handle_blocked x p w c url expiresIn isURL e :
  cache_disabled (cfg x) = false →
  redis_up x = true →
  redis w !! ("blocked:" +:+ req_ip c) = Some e →
  Redis.live (now x) e = true →
  truthy (val e) = true →
  let out := App.handle x p w c (POST_shorten url expiresIn isURL) in
  (fst (fst out) = Blocked BLOCKED_STORED (get_unblockAt (val e))
   ∨ fst (fst out) = Fail 429 (message RateLimiter.createUrlLimiter)
   ∨ fst (fst out) = Fail 429 (message (RateLimiter.globalLimiter (cfg x))))
  ∧ db (snd out) = db w.
Proof.
  intros Hon Hup He Hl Ht out. subst out. unfold App.handle.
  pose proof (globalLimiter_keeps_block x (req_ip c) (hits p) (redis w) (req_ip c)) as Hg.
  unfold rateLimit in *.
  destruct (store (RateLimiter.globalLimiter (cfg x))) as [st|] eqn:Hst; [|done].
  destruct (store_increment st x (req_ip c) (redis w)) as [n m'].
  destruct (max _ <? n); cbn [fst snd db] in *.
  - split; [by right; right|done].
  - rewrite He in Hg.
    destruct (shorten_blocked x p (mkWorld (db w) m') c url expiresIn isURL e
                Hon Hup Hg Hl Ht) as ([Hb | Hc] & Hw).
    + split; [by left|]. by rewrite Hw.
    + split; [by right; left|]. by rewrite Hw.
Qed.

(** What the other routes read of the cache. *)

Lemma cache_increment_fst_local x key ttl m m' :
  m !! key = m' !! key →
  fst (cache.increment x key ttl m) = fst (cache.increment x key ttl m').
Proof.
  intros H. unfold cache.increment, Redis.incr. rewrite H.
  destruct (redis_up x); [|done].
  destruct (m' !! key) as [e|]; [|done].
  destruct (Redis.live (now x) e); [|done].
  destruct (val e) as [n| |]; try done.
  by destruct (n + 1 =? 1).
Qed.

Lemma redirect_response_local x w w' ip ua ref shortCode :
  db w = db w' →
  redis w !! ("short:" +:+ shortCode) = redis w' !! ("short:" +:+ shortCode) →
  fst (URLController.redirectToOriginal x w ip ua ref shortCode)
  = fst (URLController.redirectToOriginal x w' ip ua ref shortCode).
Proof.
  intros Hdb Hk. unfold URLController.redirectToOriginal, cache.get, Redis.get.
  rewrite Hdb, Hk.
  destruct (cache_disabled (cfg x)), (redis_up x); cbn [RateLimiter.present];
    try by destruct (URLModel.findByShortCode _ _ _).
  destruct (redis w' !! _) as [e|]; cbn [RateLimiter.present];
    [|by destruct (URLModel.findByShortCode _ _ _)].
  destruct (Redis.live (now x) e); cbn [RateLimiter.present];
    [|by destruct (URLModel.findByShortCode _ _ _)].
  destruct (truthy (val e)); [done|].
  by destruct (URLModel.findByShortCode _ _ _).
Qed.

Lemma handle_get_local x p w w' c shortCode :
  db w = db w' →
  redis w !! ("ratelimit:" +:+ req_ip c) = redis w' !! ("ratelimit:" +:+ req_ip c) →
  redis w !! ("short:" +:+ shortCode) = redis w' !! ("short:" +:+ shortCode) →
  fst (fst (App.handle x p w c (GET_code shortCode)))
  = fst (fst (App.handle x p w' c (GET_code shortCode))).
Proof.
  intros Hdb Hr Hs. unfold App.handle, rateLimit.
  cbn [store RateLimiter.globalLimiter store_increment].
  pose proof (cache_increment_fst_local x ("ratelimit:" +:+ req_ip c) 900 _ _ Hr) as Hn.
  pose proof (cache_increment_other x ("ratelimit:" +:+ req_ip c) 900 (redis w)
                ("short:" +:+ shortCode) (short_not_ratelimit _ _)) as Hm.
  pose proof (cache_increment_other x ("ratelimit:" +:+ req_ip c) 900 (redis w')
                ("short:" +:+ shortCode) (short_not_ratelimit _ _)) as Hm'.
  destruct (cache.increment x _ 900 (redis w)) as [n m].
  destruct (cache.increment x _ 900 (redis w')) as [n' m'].
  cbn [fst snd] in *. subst n'.
  destruct (_ <? n); [done|].
  pose proof (redirect_response_local x (mkWorld (db w) m) (mkWorld (db w') m')
                (req_ip c) (req_userAgent c) (req_referer c) shortCode) as Hred.
  cbn [db redis] in Hred. specialize (Hred Hdb). rewrite Hm, Hm' in Hred.
  specialize (Hred Hs).
  destruct (URLController.redirectToOriginal x (mkWorld (db w) m) _ _ _ _) as [r1 w1].
  destruct (URLController.redirectToOriginal x (mkWorld (db w') m') _ _ _ _) as [r2 w2].
  done.
Qed.

Lemma handle_delete_local x p w w' c shortCode :
  db w = db w' →
  redis w !! ("ratelimit:" +:+ req_ip c) = redis w' !! ("ratelimit:" +:+ req_ip c) →
  fst (fst (App.handle x p w c (DELETE_code shortCode)))
  = fst (fst (App.handle x p w' c (DELETE_code shortCode))).
Proof.
  destruct w as [d m0], w' as [d' m0']. cbn [db redis]. intros <- Hr.
  unfold App.handle, rateLimit.
  cbn [store RateLimiter.globalLimiter store_increment db redis].
  pose proof (cache_increment_fst_local x ("ratelimit:" +:+ req_ip c) 900 _ _ Hr) as Hn.
  destruct (cache.increment x _ 900 m0) as [n m].
  destruct (cache.increment x _ 900 m0') as [n' m'].
  cbn [fst snd] in *. subst n'.
  destruct (_ <? n); [done|].
  pose proof (deleteShortUrl_response shortCode x (mkWorld d m)) as H1.
  pose proof (deleteShortUrl_response shortCode x (mkWorld d m')) as H2.
  cbn [db] in H1, H2.
  destruct (URLController.deleteShortUrl x (mkWorld d m) shortCode) as [r1 w1].
  destruct (URLController.deleteShortUrl x (mkWorld d m') shortCode) as [r2 w2].
  cbn [fst] in *. congruence.
Qed.

(** C2, as the code has it. When the guard reads an abuse counter above
    50 for an address that has no [blocked:{ip}] entry, it answers 429 and
    writes the entry, with [unblockAt] one hour ahead and an expiry of one
    hour. While such an entry has not expired no request of any client to
    any instance removes it, and every creation request of that address,
    with caching on and Redis reachable, is answered 429 without touching
    the store: by the guard with the stored [unblockAt], unless one of the
    two rate limiters has answered first. The guard is mounted on the
    creation route only: what a redirect or a delete answers does not
    depend on the [blocked:{ip}] entry. *)
Theorem block_rejects_creation_until_expiry :
  (∀ x ip m n,
     cache_disabled (cfg x) = false → redis_up x = true →
     Redis.get (now x) ("blocked:" +:+ ip) m = None →
     Redis.get (now x) ("abuse:" +:+ ip) m = Some (JNum n) →
     50 < n →
     RateLimiter.abuseDetection x ip m
     = (Halt (Blocked BLOCKED_NOW (Some (now x + 3600000))),
        <[("blocked:" +:+ ip) := block_entry (now x + 3600000) (now x + 3600000)]> m))
  ∧ (∀ procs w evs ip unblockAt expires,
       redis w !! ("blocked:" +:+ ip) = Some (block_entry unblockAt expires) →
       Forall (λ ev, now (ev_ctx ev) < expires) evs →
       let w' := snd (snd (run (procs, w) evs)) in
       redis w' !! ("blocked:" +:+ ip) = Some (block_entry unblockAt expires)
       ∧ ∀ x p c url expiresIn isURL,
           req_ip c = ip →
           cache_disabled (cfg x) = false → redis_up x = true →
           now x < expires →
           let out := App.handle x p w' c (POST_shorten url expiresIn isURL) in
           (fst (fst out) = Blocked BLOCKED_STORED (Some unblockAt)
            ∨ fst (fst out) = Fail 429 (message RateLimiter.createUrlLimiter)
            ∨ fst (fst out) = Fail 429 (message (RateLimiter.globalLimiter (cfg x))))
           ∧ status (fst (fst out)) = 429
           ∧ db (snd out) = db w')
  ∧ (∀ x p w w' c shortCode,
       db w = db w' →
       redis w !! ("ratelimit:" +:+ req_ip c) = redis w' !! ("ratelimit:" +:+ req_ip c) →
       (redis w !! ("short:" +:+ shortCode) = redis w' !! ("short:" +:+ shortCode) →
        fst (fst (App.handle x p w c (GET_code shortCode)))
        = fst (fst (App.handle x p w' c (GET_code shortCode))))
       ∧ fst (fst (App.handle x p w c (DELETE_code shortCode)))
         = fst (fst (App.handle x p w' c (DELETE_code shortCode)))).
Proof.
  split; [|split].
  - intros x ip m n Hon Hup Hb Hn Hlt.
    exact (abuseDetection_blocks x ip m Hon Hup n Hb Hn Hlt).
  - intros procs w evs ip unblockAt expires He Hall w'.
    assert (Hkeep : redis w' !! ("blocked:" +:+ ip) = Some (block_entry unblockAt expires)).
    { apply run_keeps_block; [done | done |].
      eapply Forall_impl; [exact Hall|]. intros ev Hev.
      unfold Redis.live. cbn [block_entry expiry]. by apply Z.ltb_lt. }
    split; [done|].
    intros x p c url expiresIn isURL <- Hon Hup Hlt out.
    destruct (handle_blocked x p w' c url expiresIn isURL
                (block_entry unblockAt expires) Hon Hup Hkeep) as (Hresp & Hdb).
    { unfold Redis.live. cbn [block_entry expiry]. by apply Z.ltb_lt. }
    { done. }
    cbn [block_entry val get_unblockAt] in Hresp. fold out in Hresp, Hdb.
    split; [done|]. split; [|done].
    destruct Hresp as [-> | [-> | ->]]; reflexivity.
  - intros x p w w' c shortCode Hdb Hr. split.
    + intros Hs. by apply handle_get_local.
    + by apply handle_delete_local.
Qed.

Lemma block_rejects_creation_until_expiry_witness :
  let x := mkCtx cfg_on 1000 true in
  let m : gmap string entry :=
    {[ "abuse:10.0.0.1" := mkEntry (JNum 51) (Some 3000000) ]} in
  let w := mkWorld (mkDatabase [] [] 1 1) (snd (RateLimiter.abuseDetection x "10.0.0.1" m)) in
  let evs := [ mkEvent (mkCtx cfg_on 2000 true) 0 visitor (GET_code "3AHQXen");
               mkEvent (mkCtx cfg_on 3000 true) 0 (mkClient "10.0.0.2" None None)
                 (POST_shorten "http://a.example/" None true) ] in
  let w' := snd (snd (run ([fresh_process], w) evs)) in
  fst (RateLimiter.abuseDetection x "10.0.0.1" m)
  = Halt (Blocked BLOCKED_NOW (Some 3601000))
  ∧ status (fst (fst (App.handle (mkCtx cfg_on 3000000 true) fresh_process w' visitor
                        (POST_shorten "http://b.example/" None true)))) = 429.
Proof.
  intros x m w evs w'.
  destruct block_rejects_creation_until_expiry as (Hwrite & Hkeep & _).
  assert (Hab : RateLimiter.abuseDetection x "10.0.0.1" m
                = (Halt (Blocked BLOCKED_NOW (Some (now x + 3600000))),
                   <[("blocked:" +:+ "10.0.0.1") :=
                       block_entry (now x + 3600000) (now x + 3600000)]> m)).
  { apply (Hwrite x "10.0.0.1" m 51); [reflexivity | reflexivity | reflexivity
                                       | reflexivity | reflexivity]. }
  split; [by rewrite Hab|].
  destruct (Hkeep [fresh_process] w evs "10.0.0.1" 3601000 3601000) as (_ & Hrej).
  - subst w. rewrite Hab. reflexivity.
  - subst evs. repeat constructor.
  - apply (Hrej (mkCtx cfg_on 3000000 true) fresh_process visitor
             "http://b.example/" None true);
      reflexivity.
Defined.

(** C2, as stated, fails for redirects: with a live [blocked:{ip}] entry
    for its address, a client is refused on the creation route and served
    on the redirect route. *)
Lemma blocked_address_still_redirected :
  let r := mkUrlRow 1 "3AHQXen" "http://a.example/" 0 None 0 None "10.0.0.9" true in
  let w := mkWorld (mkDatabase [r] [] 2 1)
             {[ "blocked:10.0.0.1" := block_entry 3601000 3601000 ]} in
  let x := mkCtx cfg_on 5000 true in
  fst (fst (App.handle x fresh_process w visitor
              (POST_shorten "http://b.example/" None true)))
  = Blocked BLOCKED_STORED (Some 3601000)
  ∧ fst (fst (App.handle x fresh_process w visitor (GET_code "3AHQXen")))
    = Redirect (Some "http://a.example/")
  ∧ status (fst (fst (App.handle x fresh_process w visitor (GET_code "3AHQXen")))) = 301.
Proof. vm_compute. repeat split. Qed.

(** ** Where the two quota tiers count *)

Lemma createUrlLimiter_verdict x ip mem m :
  rateLimit RateLimiter.createUrlLimiter x ip mem m
  = let '(n, mem') := MemoryStore.increment 900000 (now x) ip mem in
    (if 10 <? n
     then Halt (Fail 429 "Too many URLs created from this IP, please try again later.")
     else Next,
     mem', m).
Proof.
  unfold rateLimit. cbn [store RateLimiter.createUrlLimiter windowMs max message].
  change (15 * 60 * 1000) with 900000.
  destruct (MemoryStore.increment 900000 (now x) ip mem) as [n mem'].
  by destruct (10 <? n).
Qed.

Lemma globalLimiter_counts_in_redis x ip mem m :
  snd (fst (rateLimit (RateLimiter.globalLimiter (cfg x)) x ip mem m)) = mem
  ∧ snd (rateLimit (RateLimiter.globalLimiter (cfg x)) x ip mem m)
    = snd (cache.increment x ("ratelimit:" +:+ ip) 900 m).
Proof.
  unfold rateLimit. cbn [store RateLimiter.globalLimiter store_increment].
  destruct (cache.increment x _ 900 m) as [n m'].
  by destruct (_ <? n).
Qed.

(** C4, on the code. The creation limiter is built without a store, so its
    count lives in the hit table of each process and never in Redis: its
    verdict is a function of that table, and it leaves Redis as it found
    it, while the global limiter and the guard count in Redis. With two
    instances the quota is therefore per instance: after ten creation
    requests to instance 0, the eleventh is refused by instance 0 and
    accepted by instance 1. *)
Theorem create_quota_is_per_instance :
  (∀ x ip mem m,
     snd (rateLimit RateLimiter.createUrlLimiter x ip mem m) = m
     ∧ (∀ m', fst (rateLimit RateLimiter.createUrlLimiter x ip mem m')
              = fst (rateLimit RateLimiter.createUrlLimiter x ip mem m)))
  ∧ store RateLimiter.createUrlLimiter = None
  ∧ (∀ x ip mem m,
       snd (fst (rateLimit (RateLimiter.globalLimiter (cfg x)) x ip mem m)) = mem
       ∧ snd (rateLimit (RateLimiter.globalLimiter (cfg x)) x ip mem m)
         = snd (cache.increment x ("ratelimit:" +:+ ip) 900 m))
  ∧ (let s := snd (run ([fresh_process; fresh_process], mkWorld (mkDatabase [] [] 1 1) ∅)
                     ten_posts) in
     let eleventh i := mkEvent (mkCtx cfg_on 0 true) i visitor
                         (POST_shorten "http://a.example/" None true) in
     fst (step s (eleventh 0%nat))
     = Some (Fail 429 "Too many URLs created from this IP, please try again later.")
     ∧ fst (step s (eleventh 1%nat))
       = Some (Existing (Some "3AHQXen") (Some "http://a.example/"))).
Proof.
  split; [|split; [|split]].
  - intros x ip mem m. split.
    + apply createUrlLimiter_keeps_redis.
    + intros m'. rewrite !createUrlLimiter_verdict.
      by destruct (MemoryStore.increment 900000 (now x) ip mem).
  - reflexivity.
  - intros x ip mem m. apply globalLimiter_counts_in_redis.
  - vm_compute. split; reflexivity.
Qed.

(** ** Coherence of the cache is an invariant *)

Lemma code_taken_same_urls d d' c :
  urls d' = urls d → URLModel.code_taken d' c = URLModel.code_taken d c.
Proof. unfold URLModel.code_taken. by intros ->. Qed.

Lemma code_taken_map (f : UrlRow → UrlRow) rows c :
  (∀ r, short_code (f r) = short_code r) →
  existsb (λ r, (short_code r =? c)%string) (map f rows)
  = existsb (λ r, (short_code r =? c)%string) rows.
Proof.
  intros Hf. induction rows as [|a rows IH]; simpl; [done|]. by rewrite Hf, IH.
Qed.

Lemma code_taken_recordAnalytics t d urlId ip ua ref c :
  URLModel.code_taken (URLModel.recordAnalytics t d urlId ip ua ref) c
  = URLModel.code_taken d c.
Proof.
  unfold URLModel.recordAnalytics, URLModel.code_taken.
  destruct (_ && _); cbn [urls]; [|done].
  unfold URLModel.increment_click_count. apply code_taken_map.
  intros r. by destruct (decide _).
Qed.

Lemma code_taken_delete d shortCode c :
  URLModel.code_taken (snd (URLModel.delete d shortCode)) c = URLModel.code_taken d c.
Proof.
  unfold URLModel.code_taken. rewrite delete_urls. apply code_taken_map.
  intros r. apply flip_short_code.
Qed.

Lemma findByShortCode_taken t d c r :
  URLModel.findByShortCode t d c = Some r → URLModel.code_taken d c = true.
Proof.
  unfold URLModel.findByShortCode. intros H.
  apply find_some in H as (Hin & Hp).
  apply andb_true_iff in Hp as [Hp _]. apply andb_true_iff in Hp as [Hp _].
  apply code_taken_spec. exists r. split; [done|]. by apply String.eqb_eq.
Qed.

(** A step that leaves the codes of the store taken and adds [short:]
    entries for taken codes only keeps the cache coherent. *)
Lemma coherent_step w w' :
  coherent w →
  (∀ c, URLModel.code_taken (db w) c = true → URLModel.code_taken (db w') c = true) →
  (∀ c e, redis w' !! ("short:" +:+ c) = Some e →
          is_Some (redis w !! ("short:" +:+ c)) ∨ URLModel.code_taken (db w') c = true) →
  coherent w'.
Proof.
  intros Hcoh Hdb Hredis c e He.
  destruct (Hredis c e He) as [[e0 He0] | Ht]; [|done].
  apply Hdb. by eapply Hcoh.
Qed.

Lemma createShortUrl_coherent x rnd pos w ip url expiresIn :
  coherent w →
  coherent (snd (fst (URLController.createShortUrl x rnd pos w ip url expiresIn))).
Proof.
  intros Hcoh. unfold URLController.createShortUrl. rewrite trackSuspiciousUrl_eq.
  destruct (isSuspicious url).
  - apply (coherent_step w); [done | done |]. intros c e He. left.
    cbn [fst snd redis] in He.
    rewrite cache_increment_other in He by apply short_not_abuse. eauto.
  - pose proof (λ c, lookupExisting_other x url (db w) (redis w) ("short:" +:+ c)
                       (short_not_url c url)) as Hlk.
    destruct (URLController.lookupExisting x url (db w) (redis w)) as [existingUrl m2].
    cbn [snd] in Hlk.
    destruct (_ && _).
    + apply (coherent_step w); [done | done |]. intros c e He. left.
      cbn [fst snd redis] in He. rewrite Hlk in He. eauto.
    + destruct (URLModel.create _ _ _ _ _ _ _) as [[[newUrl|] d'] p'] eqn:Hc.
      * apply create_some in Hc as (_ & _ & Hurls).
        assert (Hnew : URLModel.code_taken d' (short_code newUrl) = true).
        { apply code_taken_spec. exists newUrl. split; [|done].
          rewrite Hurls. apply in_or_app. right. by left. }
        apply (coherent_step w); [done | |]; cbn [fst snd db redis].
        -- intros c Hc. apply code_taken_spec in Hc as (r0 & Hin & Heq).
           apply code_taken_spec. exists r0. split; [|done].
           rewrite Hurls. apply in_or_app. by left.
        -- intros c e He.
           rewrite cache_set_other in He by apply short_not_url.
           destruct (decide (c = short_code newUrl)) as [->|Hne]; [by right|].
           left. rewrite cache_set_other in He.
           ++ rewrite Hlk in He. eauto.
           ++ intros Heq. by apply short_key_inj in Heq.
      * apply create_none in Hc as (Hurls & _).
        apply (coherent_step w); [done | |]; cbn [fst snd db redis].
        -- intros c. by rewrite (code_taken_same_urls (db w) d' c Hurls).
        -- intros c e He. left. rewrite Hlk in He. eauto.
Qed.

Lemma redirectToOriginal_coherent x w ip ua ref shortCode :
  coherent w →
  coherent (snd (URLController.redirectToOriginal x w ip ua ref shortCode)).
Proof.
  intros Hcoh. unfold URLController.redirectToOriginal.
  destruct (RateLimiter.present (cache.get x ("short:" +:+ shortCode) (redis w))).
  - apply (coherent_step w); [done | |]; cbn [snd db redis].
    + intros c. by rewrite code_taken_recordAnalytics.
    + intros c e He. left. eauto.
  - destruct (URLModel.findByShortCode (now x) (db w) shortCode) as [r|] eqn:Hf; [|done].
    apply findByShortCode_taken in Hf.
    apply (coherent_step w); [done | |]; cbn [snd db redis].
    + intros c. by rewrite code_taken_recordAnalytics.
    + intros c e He. rewrite code_taken_recordAnalytics.
      destruct (decide (c = shortCode)) as [->|Hne]; [by right|].
      left. rewrite cache_set_other in He; [eauto|].
      intros Heq. by apply short_key_inj in Heq.
Qed.

Lemma deleteShortUrl_coherent x w shortCode :
  coherent w →
  coherent (snd (URLController.deleteShortUrl x w shortCode)).
Proof.
  intros Hcoh. apply (coherent_step w); [done | |].
  - intros c. by rewrite deleteShortUrl_db, code_taken_delete.
  - intros c e. unfold URLController.deleteShortUrl.
    destruct (URLModel.delete (db w) shortCode) as [[url|] d']; cbn [snd redis].
    + unfold cache.del, Redis.del. destruct (redis_up x); [|by left; eauto].
      intros He. left.
      apply lookup_delete_Some in He as [_ He].
      apply lookup_delete_Some in He as [_ He]. eauto.
    + left. eauto.
Qed.

Lemma shorten_coherent x p w c url expiresIn isURL :
  coherent w → coherent (snd (App.shorten x p w c url expiresIn isURL)).
Proof.
  intros Hcoh. unfold App.shorten.
  pose proof (createUrlLimiter_keeps_redis x (req_ip c) (hits p) (redis w)) as Hlim.
  destruct (rateLimit RateLimiter.createUrlLimiter x (req_ip c) (hits p) (redis w))
    as [[v mem] m]. cbn [snd] in Hlim. subst m.
  assert (Hw : coherent (mkWorld (db w) (redis w))) by (by destruct w).
  destruct v as [|r]; [|done].
  assert (Hab : ∀ k, snd (RateLimiter.abuseDetection x (req_ip c) (redis w))
                       !! ("short:" +:+ k) = redis w !! ("short:" +:+ k)).
  { intros k. unfold RateLimiter.abuseDetection.
    destruct (RateLimiter.present _); [done|].
    destruct (RateLimiter.exceeds _ _); [|done].
    apply cache_set_other, short_not_blocked. }
  destruct (RateLimiter.abuseDetection x (req_ip c) (redis w)) as [v m']. cbn [snd] in Hab.
  assert (Hw' : coherent (mkWorld (db w) m')).
  { intros k e He. cbn [redis db] in *. rewrite Hab in He. by eapply Hcoh. }
  destruct v as [|r]; [|done].
  destruct (validateUrlCreation url expiresIn isURL); [|done].
  pose proof (createShortUrl_coherent x (entropy p) (drawn p) (mkWorld (db w) m')
                (req_ip c) url expiresIn Hw') as Hcr.
  by destruct (URLController.createShortUrl _ _ _ _ _ _ _) as [[r w'] pos'].
Qed.

Lemma handle_coherent x p w c req :
  coherent w → coherent (snd (App.handle x p w c req)).
Proof.
  intros Hcoh. unfold App.handle.
  assert (Hg : ∀ k, snd (rateLimit (RateLimiter.globalLimiter (cfg x)) x (req_ip c)
                           (hits p) (redis w)) !! ("short:" +:+ k)
                    = redis w !! ("short:" +:+ k)).
  { intros k. apply rateLimit_keeps_block. intros s key [= <-]. cbn [store_increment].
    apply cache_increment_other, short_not_ratelimit. }
  destruct (rateLimit (RateLimiter.globalLimiter (cfg x)) x (req_ip c) (hits p) (redis w))
    as [[v mem] m]. cbn [snd] in Hg.
  assert (Hw : coherent (mkWorld (db w) m)).
  { intros k e He. cbn [redis db] in *. rewrite Hg in He. by eapply Hcoh. }
  destruct v as [|r]; [|done].
  destruct req as [url expiresIn isURL | shortCode | shortCode].
  - by apply shorten_coherent.
  - pose proof (deleteShortUrl_coherent x _ shortCode Hw) as Hd.
    by destruct (URLController.deleteShortUrl _ _ _).
  - pose proof (redirectToOriginal_coherent x _ (req_ip c) (req_userAgent c)
                  (req_referer c) shortCode Hw) as Hr.
    by destruct (URLController.redirectToOriginal _ _ _ _ _ _).
Qed.

(** Whatever the instances are asked, in whatever order: a cache that
    starts coherent (an empty one is) stays so. *)
Lemma run_coherent evs : ∀ s,
  coherent (snd s) → coherent (snd (snd (run s evs))).
Proof.
  induction evs as [|ev evs IH]; intros s Hcoh; [done|].
  simpl.
  assert (Hs : coherent (snd (snd (step s ev)))).
  { unfold step. destruct (fst s !! ev_instance ev) as [p|]; [|done].
    pose proof (handle_coherent (ev_ctx ev) p (snd s) (ev_client ev) (ev_request ev)
                  Hcoh) as Hh.
    by destruct (App.handle _ _ _ _ _) as [[r p'] w']. }
  destruct (step s ev) as [r s']. specialize (IH s' Hs).
  by destruct (run s' evs) as [rs s''].
Qed.

(** * Further properties of the code *)

(** ** A value written to the cache and read back *)

(** X1. A value that [cache.set] stores is what [cache.get] gives back
    for as long as its TTL runs, and gone from then on; [cache.exists]
    tells the same without reading the switch; after [cache.del] the key
    misses; other keys read as before. *)
Theorem cache_set_get_roundtrip (x x' : Ctx) (key : string) (value : jval)
    (ttl : Z) (m : gmap string entry) :
  set_effective x ttl = true →
  cache_disabled (cfg x') = false →
  redis_up x' = true →
  let m' := cache.set x key value ttl m in
  cache.get x' key m' = (if now x' <? now x + ttl * 1000 then Some value else None)
  ∧ cache.exists_ x' key m' = (now x' <? now x + ttl * 1000)
  ∧ cache.get x' key (cache.del x' key m') = None
  ∧ ∀ k, k ≠ key → cache.get x' k m' = cache.get x' k m.
Proof.
  intros Heff Hon Hup m'. subst m'. rewrite cache_set_eq, Heff.
  unfold cache.get, cache.exists_, cache.del, Redis.get, Redis.del, Redis.live.
  rewrite Hon, Hup, lookup_insert_eq, lookup_delete_eq. cbn [expiry val].
  split; [by destruct (now x' <? _)|].
  split; [by destruct (now x' <? _)|].
  split; [done|].
  intros k Hk. by rewrite lookup_insert_ne.
Qed.

Lemma cache_set_get_roundtrip_witness :
  let x := mkCtx cfg_on 1000 true in
  let m := cache.set x "short:3AHQXen" (JNum 7) 60 ∅ in
  cache.get (mkCtx cfg_on 60999 true) "short:3AHQXen" m = Some (JNum 7)
  ∧ cache.get (mkCtx cfg_on 61000 true) "short:3AHQXen" m = None.
Proof.
  intros x m. split.
  - destruct (cache_set_get_roundtrip x (mkCtx cfg_on 60999 true) "short:3AHQXen"
                (JNum 7) 60 ∅) as (Hget & _); [reflexivity..|exact Hget].
  - destruct (cache_set_get_roundtrip x (mkCtx cfg_on 61000 true) "short:3AHQXen"
                (JNum 7) 60 ∅) as (Hget & _); [reflexivity..|exact Hget].
Defined.

(** ** Counting in a fixed window *)

Lemma increment_fresh c t key ttl m :
  0 < ttl →
  Redis.get t key m = None →
  cache.increment (mkCtx c t true) key ttl m
  = (1, <[key := mkEntry (JNum 1) (Some (t + ttl * 1000))]> m).
Proof.
  intros Httl Hnone. unfold cache.increment, Redis.incr. cbn [redis_up now].
  assert (Hincr : match m !! key with
                  | Some e =>
                      if Redis.live t e then
                        match val e with
                        | JNum n => Some (n + 1, <[key := mkEntry (JNum (n + 1)) (expiry e)]> m)
                        | _ => None
                        end
                      else Some (1, <[key := mkEntry (JNum 1) None]> m)
                  | None => Some (1, <[key := mkEntry (JNum 1) None]> m)
                  end = Some (1, <[key := mkEntry (JNum 1) None]> m)).
  { revert Hnone. unfold Redis.get. destruct (m !! key) as [e|]; [|done].
    by destruct (Redis.live t e). }
  rewrite Hincr. cbn [Z.eqb Pos.eqb]. unfold Redis.expire.
  rewrite lookup_insert_eq. cbn [Redis.live expiry val].
  replace (0 <? ttl) with true by (symmetry; by apply Z.ltb_lt).
  by rewrite insert_insert_eq.
Qed.

Lemma increment_live c t key ttl m n te :
  m !! key = Some (mkEntry (JNum n) (Some te)) →
  t < te →
  n ≠ 0 →
  cache.increment (mkCtx c t true) key ttl m
  = (n + 1, <[key := mkEntry (JNum (n + 1)) (Some te)]> m).
Proof.
  intros He Hlt Hn. unfold cache.increment, Redis.incr. cbn [redis_up now].
  rewrite He. unfold Redis.live. cbn [expiry val].
  replace (t <? te) with true by (symmetry; by apply Z.ltb_lt).
  replace (n + 1 =? 1) with false by (symmetry; apply Z.eqb_neq; lia).
  done.
Qed.

Lemma increments_live c key ttl ts : ∀ m n te,
  m !! key = Some (mkEntry (JNum n) (Some te)) →
  1 ≤ n →
  Forall (λ t, t < te) ts →
  fst (increments c key ttl ts m)
  = map (λ i, n + Z.of_nat i) (seq 1 (List.length ts))
  ∧ snd (increments c key ttl ts m) !! key
    = Some (mkEntry (JNum (n + Z.of_nat (List.length ts))) (Some te)).
Proof.
  induction ts as [|t ts IH]; intros m n te He Hn Hall.
  - cbn. split; [done|]. rewrite He. do 3 f_equal. lia.
  - inversion Hall as [|? ? Ht Hts]; subst.
    cbn [increments]. rewrite (increment_live c t key ttl m n te He Ht) by lia.
    destruct (IH (<[key := mkEntry (JNum (n + 1)) (Some te)]> m) (n + 1) te)
      as (Hfst & Hsnd); [by rewrite lookup_insert_eq | lia | done |].
    destruct (increments c key ttl ts _) as [ns m''].
    cbn [fst snd List.length] in *. split.
    + rewrite Hfst. cbn [seq map]. f_equal; try lia.
      rewrite <- (seq_shift _ 1), List.map_map. apply List.map_ext. intros i. lia.
    + rewrite Hsnd. do 3 f_equal. lia.
Qed.

(** X2. The counters of [cache.increment] run in fixed windows: the
    first hit on a key that holds no live counter answers 1 and sets the
    expiry one TTL ahead; the hits that follow before that expiry answer
    2, 3, ... and leave the expiry where the first hit put it; the first
    hit at or after the expiry answers 1 again. *)
Theorem increment_fixed_window (c : Config) (key : string) (ttl t1 : Z)
    (ts : list Z) (m : gmap string entry) :
  0 < ttl →
  Redis.get t1 key m = None →
  Forall (λ t, t < t1 + ttl * 1000) ts →
  let out := increments c key ttl (t1 :: ts) m in
  fst out = map Z.of_nat (seq 1 (S (List.length ts)))
  ∧ snd out !! key
    = Some (mkEntry (JNum (Z.of_nat (S (List.length ts)))) (Some (t1 + ttl * 1000)))
  ∧ ∀ t, t1 + ttl * 1000 ≤ t →
         cache.increment (mkCtx c t true) key ttl (snd out)
         = (1, <[key := mkEntry (JNum 1) (Some (t + ttl * 1000))]> (snd out)).
Proof.
  intros Httl Hnone Hall out. subst out. cbn [increments].
  rewrite (increment_fresh c t1 key ttl m Httl Hnone).
  destruct (increments_live c key ttl ts
              (<[key := mkEntry (JNum 1) (Some (t1 + ttl * 1000))]> m) 1
              (t1 + ttl * 1000)) as (Hfst & Hsnd);
    [by rewrite lookup_insert_eq | lia | done |].
  destruct (increments c key ttl ts _) as [ns m''].
  cbn [fst snd] in *. split; [|split].
  - rewrite Hfst. cbn [seq map]. f_equal.
    rewrite <- (seq_shift _ 1), !List.map_map. apply List.map_ext. intros i. lia.
  - rewrite Hsnd. do 3 f_equal. lia.
  - intros t Ht. apply increment_fresh; [done|].
    unfold Redis.get. rewrite Hsnd. unfold Redis.live. cbn [expiry].
    replace (t <? t1 + ttl * 1000) with false by (symmetry; apply Z.ltb_ge; lia).
    done.
Qed.

Lemma increment_fixed_window_witness :
  fst (increments cfg_on "ratelimit:10.0.0.1" 900 [0; 5000; 899999] ∅) = [1; 2; 3]
  ∧ fst (cache.increment (mkCtx cfg_on 900000 true) "ratelimit:10.0.0.1" 900
           (snd (increments cfg_on "ratelimit:10.0.0.1" 900 [0; 5000; 899999] ∅)))
    = 1.
Proof.
  destruct (increment_fixed_window cfg_on "ratelimit:10.0.0.1" 900 0
              [5000; 899999] ∅) as (Hfst & _ & Hnext).
  - lia.
  - reflexivity.
  - repeat constructor.
  - split; [exact Hfst|]. rewrite Hnext; [reflexivity|]. vm_compute. discriminate.
Defined.

(** ** The guard without its cache *)

Lemma createShortUrl_answers x rnd pos w ip url expiresIn :
  let r := fst (fst (URLController.createShortUrl x rnd pos w ip url expiresIn)) in
  (r = Fail 400 "URL rejected due to security concerns" ∧ isSuspicious url = true)
  ∨ (∃ c u, r = Existing c u ∧ isSuspicious url = false
            ∧ URLController.given expiresIn = false)
  ∨ (∃ newUrl, r = Created newUrl ∧ isSuspicious url = false)
  ∨ (r = Fail 500 "Internal server error" ∧ isSuspicious url = false).
Proof.
  unfold URLController.createShortUrl. rewrite trackSuspiciousUrl_eq.
  destruct (isSuspicious url); [by left|]. right.
  destruct (URLController.lookupExisting _ _ _ _) as [existingUrl m2].
  destruct (RateLimiter.present existingUrl); cbn [andb].
  - destruct (URLController.given expiresIn) eqn:Hg; cbn [negb].
    + destruct (URLModel.create _ _ _ _ _ _ _) as [[[newUrl|] d'] p']; cbn; eauto.
    + left. cbn. eauto.
  - destruct (URLModel.create _ _ _ _ _ _ _) as [[[newUrl|] d'] p']; cbn; eauto.
Qed.

(** X3. The guard fails open. With caching switched off, or when the
    Redis commands of the request fail with an error (which the helpers
    of [cache] catch), [abuseDetection] lets the request pass and writes
    nothing, whatever block or count Redis holds for the address; and the
    creation request is then not answered with a block. *)
Theorem guard_fails_open (x : Ctx) (p : Process) (w : World) (c : Client)
    (url : string) (expiresIn : option Z) (isURL : bool) :
  cache_disabled (cfg x) = true ∨ redis_up x = false →
  RateLimiter.abuseDetection x (req_ip c) (redis w) = (Next, redis w)
  ∧ ∀ msg unblockAt,
      fst (fst (App.shorten x p w c url expiresIn isURL)) ≠ Blocked msg unblockAt.
Proof.
  intros Hoff.
  assert (Hget : ∀ k, cache.get x k (redis w) = None).
  { intros k. unfold cache.get.
    destruct Hoff as [-> | ->]; [done|]. by destruct (cache_disabled _). }
  assert (Hab : RateLimiter.abuseDetection x (req_ip c) (redis w) = (Next, redis w)).
  { unfold RateLimiter.abuseDetection. by rewrite !Hget. }
  split; [done|]. intros msg unblockAt.
  unfold App.shorten. rewrite createUrlLimiter_verdict.
  destruct (MemoryStore.increment _ _ _ _) as [n mem'].
  destruct (10 <? n); [done|]. rewrite Hab.
  unfold validateUrlCreation. destruct (_ && _); [|done].
  pose proof (createShortUrl_answers x (entropy p) (drawn p)
                (mkWorld (db w) (redis w)) (req_ip c) url expiresIn) as Hans.
  destruct (URLController.createShortUrl _ _ _ _ _ _ _) as [[r w'] pos'].
  cbn [fst] in *.
  destruct Hans as [[-> _] | [(? & ? & -> & _) | [(? & -> & _) | [-> _]]]]; done.
Qed.

Lemma guard_fails_open_witness :
  let w := mkWorld (mkDatabase [] [] 1 1)
             {[ "blocked:10.0.0.1" := block_entry 3601000 3601000 ]} in
  RateLimiter.abuseDetection (mkCtx cfg_off 5000 true) "10.0.0.1" (redis w)
  = (Next, redis w)
  ∧ RateLimiter.abuseDetection (mkCtx cfg_on 5000 false) "10.0.0.1" (redis w)
    = (Next, redis w)
  ∧ ∃ unblockAt,
      fst (RateLimiter.abuseDetection (mkCtx cfg_on 5000 true) "10.0.0.1" (redis w))
      = Halt (Blocked BLOCKED_STORED unblockAt).
Proof.
  intros w. split; [|split].
  - destruct (guard_fails_open (mkCtx cfg_off 5000 true) fresh_process w visitor
                "http://a.example/" None true) as (Hab & _).
    + left. reflexivity.
    + exact Hab.
  - destruct (guard_fails_open (mkCtx cfg_on 5000 false) fresh_process w visitor
                "http://a.example/" None true) as (Hab & _).
    + right. reflexivity.
    + exact Hab.
  - eexists. vm_compute. reflexivity.
Defined.

(** ** What the suspicious patterns match *)










(** The pattern against double shortening also catches an address that
    merely contains the letters. *)
Example isSuspicious_inside_a_word :
  isSuspicious "https://songs.example/rabbit.lyrics" = true.
Proof. reflexivity. Qed.

(** ** What a creation can answer *)

Lemma createShortUrl_failed x rnd pos w ip url expiresIn :
  fst (fst (URLController.createShortUrl x rnd pos w ip url expiresIn))
  = Fail 500 "Internal server error" →
  ∃ m2 d' pos',
    URLController.createShortUrl x rnd pos w ip url expiresIn
    = (Fail 500 "Internal server error", mkWorld d' m2, pos')
    ∧ m2 = snd (URLController.lookupExisting x url (db w) (redis w))
    ∧ URLModel.create (now x) rnd pos (db w) url ip expiresIn = (None, d', pos').
Proof.
  unfold URLController.createShortUrl. rewrite trackSuspiciousUrl_eq.
  destruct (isSuspicious url); [done|].
  destruct (URLController.lookupExisting x url (db w) (redis w)) as [existingUrl m2].
  destruct (_ && _); [done|].
  destruct (URLModel.create _ _ _ _ _ _ _) as [[[newUrl|] d'] p']; [done|].
  intros _. by exists m2, d', p'.
Qed.

(** X5. What a creation answers, and when it fails. For a request whose
    [url] is a string and whose [expiresIn] is absent or an integer that
    the validator admits, [createShortUrl] answers 400 (a suspicious URL), 200 (reuse), 201 (a
    new row) or 500, nothing else. It answers 500 only when the insert is
    refused: all five candidates and the longer code after them are codes
    of the store, or the address does not fit its column; then no row is
    added and no [short:] entry of the cache changes. *)
Theorem createShortUrl_outcomes (x : Ctx) (rnd : Entropy) (pos : nat) (w : World)
    (ip url : string) (expiresIn : option Z) :
  let out := URLController.createShortUrl x rnd pos w ip url expiresIn in
  (status (fst (fst out)) = 400 ∨ status (fst (fst out)) = 200
   ∨ status (fst (fst out)) = 201 ∨ status (fst (fst out)) = 500)
  ∧ (fst (fst out) = Fail 500 "Internal server error" →
     urls (db (snd (fst out))) = urls (db w)
     ∧ (∀ c, redis (snd (fst out)) !! ("short:" +:+ c) = redis w !! ("short:" +:+ c))
     ∧ (((∀ j, (j < 5)%nat → URLModel.code_taken (db w) (candidate rnd pos j) = true)
         ∧ URLModel.code_taken (db w) (draw alphabet rnd (pos + 35) 10) = true)
        ∨ (45 < String.length ip)%nat)).
Proof.
  intros out. split.
  - pose proof (createShortUrl_answers x rnd pos w ip url expiresIn) as Hans.
    cbv zeta in Hans. fold out in Hans.
    destruct Hans as [[-> _] | [(? & ? & -> & _) | [(? & -> & _) | [-> _]]]]; cbn; auto.
  - intros H500. apply createShortUrl_failed in H500 as (m2 & d' & pos' & Hout & Hm2 & Hc).
    subst out. rewrite Hout. cbn [fst snd db redis].
    apply create_none in Hc as (Hurls & Hwhy). split; [done|]. split.
    + intros c. rewrite Hm2. apply lookupExisting_other, short_not_url.
    + cbv zeta in Hwhy. unfold URLModel.generateUniqueShortCode in Hwhy.
      change (Z.to_nat URLModel.DEFAULT_MAX_ATTEMPTS) with 5%nat in Hwhy.
      destruct (generate_loop_result (db w) rnd 5 pos)
        as [(k & _ & Hk & Hfree & _) | (Hall & Hlong)];
        cbv zeta in *; change (pos + 7 * 5)%nat with (pos + 35)%nat in *.
      * destruct Hwhy as [Ht | [Hlen | Hip]]; [congruence | | by right].
        rewrite Hk in Hlen. unfold candidate in Hlen. rewrite draw_length in Hlen. lia.
      * destruct Hwhy as [Ht | [Hlen | Hip]]; [ | | by right].
        -- left. split; [done|]. by rewrite <- Hlong.
        -- rewrite Hlong, draw_length in Hlen. lia.
Qed.

Lemma createShortUrl_outcomes_witness :
  let taken i c := mkUrlRow i c "http://a.example/" 0 None 0 None "10.0.0.1" true in
  let w := mkWorld (mkDatabase [taken 1 "0000000"; taken 2 "0000000000"] [] 3 1) ∅ in
  let out := URLController.createShortUrl (mkCtx cfg_on 0 true) (λ _, 0%nat) 0 w
               "10.0.0.2" "http://b.example/" None in
  fst (fst out) = Fail 500 "Internal server error"
  ∧ urls (db (snd (fst out))) = urls (db w).
Proof.
  intros taken w out.
  assert (H500 : fst (fst out) = Fail 500 "Internal server error")
    by (vm_compute; reflexivity).
  split; [exact H500|].
  destruct (createShortUrl_outcomes (mkCtx cfg_on 0 true) (λ _, 0%nat) 0 w
              "10.0.0.2" "http://b.example/" None) as (_ & Hfail).
  destruct (Hfail H500) as (Hurls & _). exact Hurls.
Defined.

(** ** From creation to resolution *)

(** X6. Round trip. Once [createShortUrl] has answered 201 for a URL,
    resolving the code of the new row redirects to that URL, from the
    cache or from the store, at every instant at which the row has not
    expired. *)
Theorem resolve_after_create (x x' : Ctx) (rnd : Entropy) (pos : nat) (w : World)
    (ip url : string) (expiresIn : option Z) (r : UrlRow) (w1 : World) (pos1 : nat)
    (ip' : string) (ua ref : option string) :
  coherent w →
  URLController.createShortUrl x rnd pos w ip url expiresIn = (Created r, w1, pos1) →
  not_expired (now x') r = true →
  original_url r = url
  ∧ fst (URLController.redirectToOriginal x' w1 ip' ua ref (short_code r))
    = Redirect (Some url).
Proof.
  intros Hcoh Hc Hne.
  pose proof (created_short_entry _ _ _ _ _ _ _ _ _ _ Hcoh Hc) as Hentry.
  apply createShortUrl_created in Hc as (_ & _ & Hcreate & _).
  apply create_some in Hcreate as (Hr & Hfree & Hurls).
  assert (Hact : is_active r = true) by (by rewrite Hr).
  assert (Hurl : original_url r = url) by (by rewrite Hr).
  split; [done|].
  destruct (cache.get x' ("short:" +:+ short_code r) (redis w1)) as [v|] eqn:Hget.
  - apply cache_get_some in Hget as (Hon & Hup & e & He & Hl & Hv).
    rewrite Hentry in He. destruct (set_effective x _); [|done].
    injection He as <-. cbn [val] in Hv. subst v.
    assert (Hget : cache.get x' ("short:" +:+ short_code r) (redis w1) = Some (JRow r)).
    { unfold cache.get, Redis.get. by rewrite Hon, Hup, Hentry, Hl. }
    rewrite (redirect_hit _ _ _ _ _ _ r Hget). by rewrite Hurl.
  - rewrite redirect_miss by done.
    rewrite (findByShortCode_fresh (now x') (db w) (db w1) r Hfree Hurls).
    rewrite Hact, Hne. cbn. by rewrite Hurl.
Qed.

Lemma resolve_after_create_witness :
  let w := mkWorld (mkDatabase [] [] 1 1) ∅ in
  let out := URLController.createShortUrl (mkCtx cfg_on 0 true) stride 0 w
               "10.0.0.1" "http://a.example/" None in
  fst (URLController.redirectToOriginal (mkCtx cfg_off 900000000 false)
         (snd (fst out)) "10.0.0.2" None None "3AHQXen")
  = Redirect (Some "http://a.example/").
Proof.
  intros w out.
  destruct (resolve_after_create (mkCtx cfg_on 0 true) (mkCtx cfg_off 900000000 false)
              stride 0 w "10.0.0.1" "http://a.example/" None
              (mkUrlRow 1 "3AHQXen" "http://a.example/" 0 None 0 None "10.0.0.1" true)
              (snd (fst out)) 7%nat "10.0.0.2" None None) as (_ & Hres).
  - apply coherent_empty.
  - vm_compute. reflexivity.
  - reflexivity.
  - exact Hres.
Defined.

Lemma abuseDetection_verdict x ip m :
  fst (RateLimiter.abuseDetection x ip m) = Next
  ∨ ∃ msg unblockAt, fst (RateLimiter.abuseDetection x ip m) = Halt (Blocked msg unblockAt).
Proof.
  unfold RateLimiter.abuseDetection.
  destruct (RateLimiter.present _); [right; cbn; eauto|].
  destruct (RateLimiter.exceeds _ _); [right; cbn; eauto | by left].
Qed.

(** X7. What the creation route lets into the store, for a request
    whose [url] is a string and whose [expiresIn] is absent or an
    integer. A row that such a request to [POST /api/shorten] creates
    holds the URL of the request, which passed the validator (not empty,
    at most 2048 characters, of URL shape) and the suspicious patterns,
    the address of the client, the instant of the request, no clicks, a
    code of length 7 or 10, and either no expiry or one between a minute
    and a year ahead. *)
Theorem created_row_is_validated (x : Ctx) (p : Process) (w : World) (c : Client)
    (url : string) (expiresIn : option Z) (isURL : bool) (r : UrlRow) :
  fst (fst (App.shorten x p w c url expiresIn isURL)) = Created r →
  (original_url r = url ∧ url ≠ "" ∧ isURL = true
   ∧ (String.length url <= 2048)%nat ∧ isSuspicious url = false)
  ∧ (creator_ip r = req_ip c ∧ created_at r = now x ∧ click_count r = 0
     ∧ last_accessed r = None ∧ is_active r = true)
  ∧ (String.length (short_code r) = 7%nat ∨ String.length (short_code r) = 10%nat)
  ∧ match expiresIn with
    | None => expires_at r = None
    | Some e => 60 ≤ e ≤ 31536000 ∧ expires_at r = Some (now x + e * 1000)
    end.
Proof.
  unfold App.shorten. rewrite createUrlLimiter_verdict.
  destruct (MemoryStore.increment _ _ _ _) as [n mem'].
  destruct (10 <? n); [done|].
  pose proof (abuseDetection_verdict x (req_ip c) (redis w)) as Hv.
  destruct (RateLimiter.abuseDetection x (req_ip c) (redis w)) as [v m'].
  cbn [fst] in Hv. destruct Hv as [-> | (msg & u & ->)]; [|done].
  unfold validateUrlCreation.
  destruct (negb (url =? "")%string) eqn:Hne; cbn [andb]; [|done].
  destruct isURL; cbn [andb]; [|done].
  destruct (Z.of_nat (String.length url) <=? 2048) eqn:Hlen; cbn [andb]; [|done].
  destruct (match expiresIn with
            | Some e => (60 <=? e) && (e <=? 31536000)
            | None => true
            end) eqn:Hexp; [|done].
  destruct (URLController.createShortUrl x (entropy p) (drawn p)
              (mkWorld (db w) m') (req_ip c) url expiresIn) as [[r0 w'] pos'] eqn:Hc.
  cbn [fst]. intros ->.
  apply createShortUrl_created in Hc as (Hsus & _ & Hcreate & _).
  apply create_some in Hcreate as (Hr & _ & _).
  apply negb_true_iff, String.eqb_neq in Hne. apply Z.leb_le in Hlen.
  pose proof (generate_length (db w) URLModel.DEFAULT_MAX_ATTEMPTS (entropy p) (drawn p))
    as Hcode.
  rewrite Hr. cbn [original_url creator_ip created_at click_count last_accessed
                   is_active short_code expires_at db].
  split; [repeat split; [done | lia | done]|].
  split; [done|]. split; [exact Hcode|].
  destruct expiresIn as [e|]; [|done].
  apply andb_true_iff in Hexp as [Hlo Hhi].
  apply Z.leb_le in Hlo. apply Z.leb_le in Hhi.
  split; [lia|]. unfold expiry_of.
  replace (e =? 0) with false by (symmetry; apply Z.eqb_neq; lia). done.
Qed.

Lemma created_row_is_validated_witness :
  let out := App.shorten (mkCtx cfg_on 0 true) fresh_process
               (mkWorld (mkDatabase [] [] 1 1) ∅) visitor
               "http://a.example/" (Some 3600) true in
  ∃ r, fst (fst out) = Created r ∧ expires_at r = Some 3600000.
Proof.
  intros out.
  exists (mkUrlRow 1 "3AHQXen" "http://a.example/" 0 (Some 3600000) 0 None
            "10.0.0.1" true).
  assert (Hc : fst (fst out)
               = Created (mkUrlRow 1 "3AHQXen" "http://a.example/" 0 (Some 3600000)
                            0 None "10.0.0.1" true)) by (vm_compute; reflexivity).
  split; [exact Hc|].
  destruct (created_row_is_validated _ _ _ _ _ _ _ _ Hc) as (_ & _ & _ & _ & Hexp).
  exact Hexp.
Defined.

(** ** What becomes of the rows of the store *)

Lemma row_evolves_refl r : row_evolves r r.
Proof. unfold row_evolves. repeat split; try done; lia. Qed.

Lemma row_evolves_trans r1 r2 r3 :
  row_evolves r1 r2 → row_evolves r2 r3 → row_evolves r1 r3.
Proof.
  unfold row_evolves.
  intros (? & ? & ? & ? & ? & ? & ? & ?) (? & ? & ? & ? & ? & ? & ? & ?).
  repeat split; try congruence; try lia; auto.
Qed.

Lemma rows_evolve_map (f : UrlRow → UrlRow) rows :
  (∀ r, row_evolves r (f r)) → Forall2 row_evolves rows (map f rows).
Proof. intros Hf. induction rows; simpl; constructor; auto. Qed.

Lemma rows_evolve_trans l1 : ∀ l2 l3,
  Forall2 row_evolves l1 l2 → Forall2 row_evolves l2 l3 → Forall2 row_evolves l1 l3.
Proof.
  induction l1 as [|a l1 IH]; intros l2 l3 H12 H23.
  - inversion H12; subst. inversion H23; subst. constructor.
  - inversion H12 as [|? b ? l2' Hab Hrest]; subst.
    inversion H23 as [|? c ? l3' Hbc Hrest']; subst.
    constructor; [by eapply row_evolves_trans | by eapply IH].
Qed.

Lemma rows_evolve_refl rows : Forall2 row_evolves rows rows.
Proof. induction rows; constructor; [apply row_evolves_refl | done]. Qed.

Lemma db_evolves_refl d : db_evolves d d.
Proof.
  split.
  - exists (urls d), []. rewrite app_nil_r. split; [done|]. apply rows_evolve_refl.
  - exists []. by rewrite app_nil_r.
Qed.

Lemma db_evolves_same d d' :
  urls d' = urls d → url_analytics d' = url_analytics d → db_evolves d d'.
Proof.
  intros Hu Ha. destruct (db_evolves_refl d) as [Hrows Hacc].
  split; [by rewrite Hu | by rewrite Ha].
Qed.

Lemma db_evolves_trans d1 d2 d3 :
  db_evolves d1 d2 → db_evolves d2 d3 → db_evolves d1 d3.
Proof.
  intros [(old1 & new1 & Hu1 & H1) (more1 & Ha1)] [(old2 & new2 & Hu2 & H2) (more2 & Ha2)].
  split.
  - rewrite Hu1 in H2. apply Forall2_app_inv_l in H2 as (k1 & k2 & Hk1 & Hk2 & ->).
    exists k1, (k2 ++ new2)%list. split; [by rewrite Hu2, <- app_assoc|].
    by eapply rows_evolve_trans.
  - exists (more1 ++ more2)%list. by rewrite Ha2, Ha1, <- app_assoc.
Qed.

(** The three statements that write rows. *)

Lemma insert_url_evolves t d shortCode originalUrl creatorIp expiresAt :
  db_evolves d (snd (URLModel.insert_url t d shortCode originalUrl creatorIp expiresAt)).
Proof.
  unfold URLModel.insert_url. destruct (_ || _); cbn [snd].
  - by apply db_evolves_same.
  - split; cbn [urls url_analytics].
    + eexists (urls d), [_]. split; [done|]. apply rows_evolve_refl.
    + exists []. by rewrite app_nil_r.
Qed.

Lemma recordAnalytics_evolves t d urlId ip ua ref :
  db_evolves d (URLModel.recordAnalytics t d urlId ip ua ref).
Proof.
  unfold URLModel.recordAnalytics. destruct (_ && _).
  - split; cbn [urls url_analytics].
    + eexists _, []. rewrite app_nil_r. split; [done|].
      apply rows_evolve_map. intros r. destruct (decide _); [|apply row_evolves_refl].
      unfold row_evolves. cbn. repeat split; try done; lia.
    + by eexists [_].
  - by apply db_evolves_same.
Qed.

Lemma delete_evolves d shortCode :
  db_evolves d (snd (URLModel.delete d shortCode)).
Proof.
  split; cbn [snd URLModel.delete urls url_analytics].
  - eexists _, []. rewrite app_nil_r. split; [done|].
    apply rows_evolve_map. intros r. destruct (_ =? _)%string; [|apply row_evolves_refl].
    unfold row_evolves. cbn. repeat split; try done; lia.
  - exists []. by rewrite app_nil_r.
Qed.

(** The database a handler leaves, in terms of those statements. *)

Lemma createShortUrl_db x rnd pos w ip url expiresIn :
  let d' := db (snd (fst (URLController.createShortUrl x rnd pos w ip url expiresIn))) in
  d' = db w
  ∨ ∃ code expiresAt, d' = snd (URLModel.insert_url (now x) (db w) code url ip expiresAt).
Proof.
  unfold URLController.createShortUrl. rewrite trackSuspiciousUrl_eq.
  destruct (isSuspicious url); [by left|].
  destruct (URLController.lookupExisting _ _ _ _) as [existingUrl m2].
  destruct (_ && _); [by left|]. right.
  unfold URLModel.create.
  destruct (URLModel.generateUniqueShortCode _ _ _ _) as [code p1].
  exists code, (expiry_of (now x) expiresIn). unfold expiry_of.
  destruct (URLModel.insert_url _ _ _ _ _ _) as [[newUrl|] d']; reflexivity.
Qed.

Lemma redirectToOriginal_db x w ip ua ref shortCode :
  let d' := db (snd (URLController.redirectToOriginal x w ip ua ref shortCode)) in
  d' = db w ∨ ∃ urlId, d' = URLModel.recordAnalytics (now x) (db w) urlId ip ua ref.
Proof.
  unfold URLController.redirectToOriginal.
  destruct (RateLimiter.present _); [right; cbn; eauto|].
  destruct (URLModel.findByShortCode _ _ _); [right; cbn; eauto | by left].
Qed.

(** A property of the store that the three statements keep is kept by
    every request, and so by every trace. *)
Section StoreInvariant.

Variable P : Database → Database → Prop.
Hypothesis P_refl : ∀ d, P d d.
Hypothesis P_trans : ∀ d1 d2 d3, P d1 d2 → P d2 d3 → P d1 d3.
Hypothesis P_insert : ∀ t d code url ip expiresAt,
  P d (snd (URLModel.insert_url t d code url ip expiresAt)).
Hypothesis P_record : ∀ t d urlId ip ua ref,
  P d (URLModel.recordAnalytics t d urlId ip ua ref).
Hypothesis P_delete : ∀ d shortCode, P d (snd (URLModel.delete d shortCode)).

Lemma shorten_keeps x p w c url expiresIn isURL :
  P (db w) (db (snd (App.shorten x p w c url expiresIn isURL))).
Proof.
  unfold App.shorten.
  destruct (rateLimit RateLimiter.createUrlLimiter x (req_ip c) (hits p) (redis w))
    as [[[|r] mem] m]; [|apply P_refl].
  destruct (RateLimiter.abuseDetection x (req_ip c) m) as [[|r] m']; [|apply P_refl].
  destruct (validateUrlCreation url expiresIn isURL); [|apply P_refl].
  pose proof (createShortUrl_db x (entropy p) (drawn p) (mkWorld (db w) m')
                (req_ip c) url expiresIn) as Hdb.
  destruct (URLController.createShortUrl _ _ _ _ _ _ _) as [[r w'] pos'].
  cbn [fst snd db] in *. destruct Hdb as [-> | (code & e & ->)]; [apply P_refl|].
  apply P_insert.
Qed.

Lemma handle_keeps x p w c req :
  P (db w) (db (snd (App.handle x p w c req))).
Proof.
  unfold App.handle.
  destruct (rateLimit (RateLimiter.globalLimiter (cfg x)) x (req_ip c) (hits p) (redis w))
    as [[[|r] mem] m]; [|apply P_refl].
  destruct req as [url expiresIn isURL | shortCode | shortCode].
  - apply (shorten_keeps x p (mkWorld (db w) m)).
  - pose proof (deleteShortUrl_db shortCode x (mkWorld (db w) m)) as Hdb.
    destruct (URLController.deleteShortUrl _ _ _) as [r w'].
    cbn [fst snd db] in *. rewrite Hdb. apply P_delete.
  - pose proof (redirectToOriginal_db x (mkWorld (db w) m) (req_ip c)
                  (req_userAgent c) (req_referer c) shortCode) as Hdb.
    destruct (URLController.redirectToOriginal _ _ _ _ _ _) as [r w'].
    cbn [fst snd db] in *. destruct Hdb as [-> | (urlId & ->)]; [apply P_refl|].
    apply P_record.
Qed.

Lemma run_keeps evs : ∀ s, P (db (snd s)) (db (snd (snd (run s evs)))).
Proof.
  induction evs as [|ev evs IH]; intros s; [apply P_refl|].
  simpl.
  assert (Hs : P (db (snd s)) (db (snd (snd (step s ev))))).
  { unfold step. destruct (fst s !! ev_instance ev) as [p|]; [|apply P_refl].
    pose proof (handle_keeps (ev_ctx ev) p (snd s) (ev_client ev) (ev_request ev)) as Hh.
    by destruct (App.handle _ _ _ _ _) as [[r p'] w']. }
  destruct (step s ev) as [r s']. specialize (IH s').
  destruct (run s' evs) as [rs s'']. cbn [snd] in *. by eapply P_trans.
Qed.

End StoreInvariant.

(** X8. The history of the store. Whatever requests the instances
    serve, in whatever order: every row the store had is still there, in
    its place, with its id, code, URL, creation instant, expiry and
    creator unchanged, its click count not smaller, and inactive if it was
    inactive; and every recorded access is still there. Rows and accesses
    are only ever added. *)
Theorem store_history (s : list Process * World) (evs : list Event) :
  let d := db (snd s) in
  let d' := db (snd (snd (run s evs))) in
  db_evolves d d'
  ∧ (∀ i r, urls d !! i = Some r → ∃ r', urls d' !! i = Some r' ∧ row_evolves r r')
  ∧ (∀ i a, url_analytics d !! i = Some a → url_analytics d' !! i = Some a).
Proof.
  intros d d'.
  assert (Hev : db_evolves d d').
  { apply run_keeps.
    - apply db_evolves_refl.
    - apply db_evolves_trans.
    - apply insert_url_evolves.
    - apply recordAnalytics_evolves.
    - apply delete_evolves. }
  split; [done|]. destruct Hev as [(old & new & Hu & Hrows) (more & Ha)]. split.
  - intros i r Hi.
    destruct (Forall2_lookup_l _ _ _ _ _ Hrows Hi) as (r' & Hr' & Hrr').
    exists r'. split; [|done]. rewrite Hu. by apply lookup_app_l_Some.
  - intros i a Hi. rewrite Ha. by apply lookup_app_l_Some.
Qed.

(** ** The constraints of the schema *)

Lemma NoDup_snoc {A} (l : list A) (a : A) :
  NoDup l → ¬ In a l → NoDup (l ++ [a]).
Proof.
  induction l as [|b l IH]; intros Hnd Hnin; simpl.
  - constructor; [by intros ?%elem_of_nil | constructor].
  - inversion Hnd as [|? ? Hb Hl]; subst. constructor.
    + rewrite list_elem_of_In, in_app_iff. rewrite list_elem_of_In in Hb.
      intros [Hin | [-> | []]]; [done|]. apply Hnin. by left.
    + apply IH; [done|]. intros Hin. apply Hnin. by right.
Qed.

Lemma NoDup_map_eq {A B} (f : A → B) l a b :
  NoDup (map f l) → In a l → In b l → f a = f b → a = b.
Proof.
  induction l as [|c l IH]; simpl; [done|].
  intros Hnd Ha Hb Heq. inversion Hnd as [|? ? Hc Hl]; subst.
  rewrite list_elem_of_In in Hc.
  destruct Ha as [-> | Ha], Hb as [-> | Hb]; [done | | | by apply IH].
  - exfalso. apply Hc. rewrite Heq. by apply in_map.
  - exfalso. apply Hc. rewrite <- Heq. by apply in_map.
Qed.

Lemma store_ok_same d d' :
  map short_code (urls d') = map short_code (urls d) →
  map id (urls d') = map id (urls d) →
  urls_id_seq d ≤ urls_id_seq d' →
  store_ok d → store_ok d'.
Proof.
  intros Hc Hi Hseq (Hcodes & Hids & Hlt & Hlen). unfold store_ok.
  rewrite Hc, Hi. repeat split; try done.
  eapply Forall_impl; [exact Hlt|]. intros i. cbn. lia.
Qed.

Lemma insert_url_store_ok t d shortCode originalUrl creatorIp expiresAt :
  store_ok d →
  store_ok (snd (URLModel.insert_url t d shortCode originalUrl creatorIp expiresAt)).
Proof.
  intros Hok. unfold URLModel.insert_url.
  destruct (URLModel.code_taken d shortCode) eqn:Htaken; cbn [orb snd].
  { apply (store_ok_same d); [done | done | cbn; lia | done]. }
  destruct (10 <? _) eqn:H10; cbn [orb snd].
  { apply (store_ok_same d); [done | done | cbn; lia | done]. }
  destruct (45 <? _); cbn [snd].
  { apply (store_ok_same d); [done | done | cbn; lia | done]. }
  destruct Hok as (Hcodes & Hids & Hlt & Hlen). unfold store_ok.
  cbn [urls urls_id_seq]. rewrite !map_app. cbn [map short_code id].
  repeat split.
  - apply NoDup_snoc; [done|]. intros Hin. apply in_map_iff in Hin as (r & Hr & Hin).
    eapply code_free_spec in Htaken; eauto.
  - apply NoDup_snoc; [done|]. intros Hin.
    rewrite Forall_forall in Hlt. apply list_elem_of_In, Hlt in Hin. lia.
  - apply Forall_app. split.
    + eapply Forall_impl; [exact Hlt|]. intros i. cbn. lia.
    + constructor; [lia | constructor].
  - apply Forall_app. split; [done|]. constructor; [|constructor].
    apply Z.ltb_ge in H10. lia.
Qed.

Lemma recordAnalytics_store_ok t d urlId ip ua ref :
  store_ok d → store_ok (URLModel.recordAnalytics t d urlId ip ua ref).
Proof.
  unfold URLModel.recordAnalytics. destruct (_ && _).
  - apply store_ok_same; cbn [urls urls_id_seq]; [| |lia];
      unfold URLModel.increment_click_count; rewrite List.map_map;
      apply List.map_ext; intros r; by destruct (decide _).
  - by apply store_ok_same.
Qed.

Lemma delete_store_ok d shortCode :
  store_ok d → store_ok (snd (URLModel.delete d shortCode)).
Proof.
  apply store_ok_same; cbn [snd URLModel.delete urls urls_id_seq]; [| |lia];
    rewrite List.map_map; apply List.map_ext; intros r;
    by destruct (_ =? _)%string.
Qed.

(** X9. The uniqueness constraints hold along every trace. If the rows
    of the store have pairwise different short codes and ids (and ids
    below the sequence, codes of at most 10 characters), they still have
    after any requests served by any instances: in particular no creation
    ever gives a second row the code or the id of another. *)
Theorem store_constraints_kept (s : list Process * World) (evs : list Event) :
  store_ok (db (snd s)) →
  let d' := db (snd (snd (run s evs))) in
  store_ok d'
  ∧ ∀ r1 r2, In r1 (urls d') → In r2 (urls d') →
             short_code r1 = short_code r2 ∨ id r1 = id r2 → r1 = r2.
Proof.
  intros Hok d'.
  assert (Hok' : store_ok d').
  { revert Hok. apply (run_keeps (λ d1 d2, store_ok d1 → store_ok d2)).
    - done.
    - intros d1 d2 d3 H12 H23 H1. auto.
    - intros. by apply insert_url_store_ok.
    - intros. by apply recordAnalytics_store_ok.
    - intros. by apply delete_store_ok. }
  split; [done|]. destruct Hok' as (Hcodes & Hids & _).
  intros r1 r2 H1 H2 [Hc | Hi].
  - by eapply (NoDup_map_eq short_code).
  - by eapply (NoDup_map_eq id).
Qed.

Lemma store_constraints_kept_witness :
  let s := ([fresh_process; fresh_process], mkWorld (mkDatabase [] [] 1 1) ∅) in
  store_ok (db (snd (snd (run s ten_posts)))).
Proof.
  intros s. apply (store_constraints_kept s ten_posts).
  unfold store_ok. cbn. repeat split; constructor.
Defined.

(** ** Click counts and recorded accesses *)

Lemma accesses_same d d' i :
  url_analytics d' = url_analytics d → accesses d' i = accesses d i.
Proof. unfold accesses. by intros ->. Qed.

Lemma clicks_ok_rows d d' :
  url_analytics d' = url_analytics d →
  urls_id_seq d ≤ urls_id_seq d' →
  Forall2 (λ r r', id r' = id r ∧ click_count r' = click_count r) (urls d) (urls d') →
  clicks_ok d → clicks_ok d'.
Proof.
  intros Ha Hseq Hrows [Hurls Hacc]. split.
  - clear Hacc. induction Hrows as [|r r' l l' [Hid Hcl] Hrest IH]; [constructor|].
    inversion Hurls as [|? ? [Hlt Hcount] Hl]; subst. constructor; [|by apply IH].
    rewrite Hid, Hcl, (accesses_same d d' _ Ha). split; [lia | done].
  - rewrite Ha. eapply Forall_impl; [exact Hacc|]. intros a Hi i Hu.
    specialize (Hi i Hu). lia.
Qed.

Lemma rows_same_map (f : UrlRow → UrlRow) rows :
  (∀ r, id (f r) = id r ∧ click_count (f r) = click_count r) →
  Forall2 (λ r r', id r' = id r ∧ click_count r' = click_count r) rows (map f rows).
Proof. intros Hf. induction rows; simpl; constructor; auto. Qed.

Lemma insert_url_clicks_ok t d shortCode originalUrl creatorIp expiresAt :
  clicks_ok d →
  clicks_ok (snd (URLModel.insert_url t d shortCode originalUrl creatorIp expiresAt)).
Proof.
  intros Hok. unfold URLModel.insert_url. destruct (_ || _); cbn [snd].
  - apply (clicks_ok_rows d); [done | cbn; lia | | done].
    cbn [urls]. rewrite <- (map_id (urls d)) at 2. by apply rows_same_map.
  - destruct Hok as [Hurls Hacc]. split; cbn [urls url_analytics urls_id_seq].
    + apply Forall_app. split.
      * eapply Forall_impl; [exact Hurls|]. intros r [Hlt Hcount]. split; [lia|done].
      * constructor; [|constructor]. cbn [id click_count]. split; [lia|].
        unfold accesses. cbn [url_analytics].
        assert (Hnone : List.filter
                          (λ a, bool_decide (url_id a = Some (urls_id_seq d)))
                          (url_analytics d) = []).
        { clear Hurls. induction Hacc as [|a l Ha Hl IH]; [done|]. simpl.
          rewrite IH. destruct (bool_decide_reflect (url_id a = Some (urls_id_seq d)))
            as [Heq|]; [|done]. specialize (Ha _ Heq). lia. }
        by rewrite Hnone.
    + eapply Forall_impl; [exact Hacc|]. intros a Hi i Hu. specialize (Hi i Hu). lia.
Qed.

Lemma delete_clicks_ok d shortCode :
  clicks_ok d → clicks_ok (snd (URLModel.delete d shortCode)).
Proof.
  apply clicks_ok_rows; cbn [snd URLModel.delete urls]; [done | cbn; lia |].
  apply rows_same_map. intros r. by destruct (_ =? _)%string.
Qed.

Lemma recordAnalytics_clicks_ok t d urlId ip ua ref :
  clicks_ok d → clicks_ok (URLModel.recordAnalytics t d urlId ip ua ref).
Proof.
  intros [Hurls Hacc]. unfold URLModel.recordAnalytics.
  destruct (match urlId with
            | Some i => existsb (λ r, id r =? i) (urls d)
            | None => true
            end) eqn:Hfk; cbn [andb].
  2:{ apply (clicks_ok_rows d); [done | cbn; lia | | done].
      cbn [urls]. rewrite <- (map_id (urls d)) at 2. by apply rows_same_map. }
  destruct (_ <=? 45).
  2:{ apply (clicks_ok_rows d); [done | cbn; lia | | done].
      cbn [urls]. rewrite <- (map_id (urls d)) at 2. by apply rows_same_map. }
  set (new := mkAnalyticsRow (url_analytics_id_seq d) urlId t ip ua ref).
  split; cbn [urls url_analytics urls_id_seq].
  - unfold URLModel.increment_click_count. clear Hfk Hacc.
    induction Hurls as [|r l [Hlt Hcount] Hl IH]; [constructor|].
    simpl. constructor; [|exact IH].
    unfold accesses in *. cbn [url_analytics]. rewrite List.filter_app, length_app.
    cbn [List.filter url_id new].
    destruct (decide (Some (id r) = urlId)) as [Heq | Hne]; cbn [id click_count].
    + rewrite bool_decide_true by done. cbn [List.length]. split; [done|]. lia.
    + rewrite bool_decide_false by done. cbn [List.length]. split; [done|]. lia.
  - apply Forall_app. split; [done|]. constructor; [|constructor].
    intros i Hu. cbn [url_id new] in Hu. subst urlId.
    apply existsb_exists in Hfk as (r & Hin & Hr). apply Z.eqb_eq in Hr. subst i.
    rewrite Forall_forall in Hurls. apply list_elem_of_In, Hurls in Hin. tauto.
Qed.

Lemma remove_dups_length {A} `{EqDecision A} (l : list A) :
  (List.length (remove_dups l) <= List.length l)%nat.
Proof.
  induction l as [|a l IH]; simpl; [done|].
  destruct (decide_rel _ _ _); simpl; lia.
Qed.

(** X10. Click counts agree with the recorded accesses. If every row's
    [click_count] is the number of analytics rows recorded for it, then
    after any requests served by any instances it still is, and the
    analytics read reports [clickCount] equal to [totalClicks] and at most
    that many unique visitors, for every code. *)
Theorem clicks_match_accesses (s : list Process * World) (evs : list Event) :
  clicks_ok (db (snd s)) →
  let w' := snd (snd (run s evs)) in
  clicks_ok (db w')
  ∧ ∀ shortCode code url createdAt clicks total visitors lastAccessed,
      URLController.getAnalytics w' shortCode
      = AnalyticsData code url createdAt clicks total visitors lastAccessed →
      clicks = total ∧ 0 ≤ visitors ≤ total.
Proof.
  intros Hok w'.
  assert (Hok' : clicks_ok (db w')).
  { revert Hok. apply (run_keeps (λ d1 d2, clicks_ok d1 → clicks_ok d2)).
    - done.
    - intros d1 d2 d3 H12 H23 H1. auto.
    - intros. by apply insert_url_clicks_ok.
    - intros. by apply recordAnalytics_clicks_ok.
    - intros. by apply delete_clicks_ok. }
  split; [done|].
  intros shortCode code url createdAt clicks total visitors lastAccessed.
  unfold URLController.getAnalytics, URLModel.getAnalytics.
  destruct (List.find _ (urls (db w'))) as [u|] eqn:Hfind; [|done].
  cbn [URLModel.report_row URLModel.total_clicks URLModel.unique_visitors].
  intros [= <- <- <- <- <- <- <-].
  apply find_some in Hfind as [Hin _].
  destruct Hok' as [Hurls _]. rewrite Forall_forall in Hurls.
  apply list_elem_of_In, Hurls in Hin as [_ Hcount]. split; [exact Hcount|].
  split; [lia|].
  apply Nat2Z.inj_le. etransitivity; [apply remove_dups_length|].
  by rewrite length_map.
Qed.

Lemma clicks_match_accesses_witness :
  let s := ([fresh_process], mkWorld (mkDatabase [] [] 1 1) ∅) in
  let go t req := mkEvent (mkCtx cfg_on t true) 0 visitor req in
  let evs := [ go 0 (POST_shorten "http://a.example/" None true);
               go 1000 (GET_code "3AHQXen"); go 2000 (GET_code "3AHQXen") ] in
  URLController.getAnalytics (snd (snd (run s evs))) "3AHQXen"
  = AnalyticsData "3AHQXen" "http://a.example/" 0 2 2 1 (Some 2000).
Proof.
  intros s go evs.
  assert (Hget : URLController.getAnalytics (snd (snd (run s evs))) "3AHQXen"
                 = AnalyticsData "3AHQXen" "http://a.example/" 0 2 2 1 (Some 2000))
    by (vm_compute; reflexivity).
  destruct (clicks_match_accesses s evs) as (_ & Hagree).
  - split; constructor.
  - destruct (Hagree _ _ _ _ _ _ _ _ Hget) as (_ & _). exact Hget.
Defined.

(** ** Analytics of a deleted code *)

Lemma find_code_after_flip shortCode c rows :
  List.find (hit c) (map (flip shortCode) rows)
  = option_map (flip shortCode) (List.find (hit c) rows).
Proof.
  induction rows as [|r rows IH]; simpl; [done|].
  unfold hit at 1. rewrite flip_short_code. fold (hit c r).
  by destruct (hit c r).
Qed.

Lemma getAnalytics_missing w shortCode :
  URLController.getAnalytics w shortCode = AnalyticsFail 404 "URL not found"
  ↔ URLModel.code_taken (db w) shortCode = false.
Proof.
  unfold URLController.getAnalytics, URLModel.getAnalytics.
  fold (hit shortCode). split.
  - destruct (List.find (hit shortCode) (urls (db w))) as [u|] eqn:Hfind; [done|].
    intros _. apply code_free_spec. intros r Hin Heq.
    eapply find_none in Hfind; [|exact Hin]. unfold hit in Hfind.
    apply String.eqb_neq in Hfind. done.
  - intros Hfree.
    destruct (List.find (hit shortCode) (urls (db w))) as [u|] eqn:Hfind; [|done].
    apply find_some in Hfind as [Hin Hu]. unfold hit in Hu. apply String.eqb_eq in Hu.
    eapply code_free_spec in Hfree; [|exact Hin]. done.
Qed.

(** X11. The analytics read looks at neither [is_active] nor the
    expiry: it answers 404 exactly for the codes no row carries, and a
    delete changes nothing of what it answers, for any code. So the
    analytics of a code stay readable after the code was deleted. *)
Theorem analytics_survive_delete (x : Ctx) (w : World) (shortCode : string) :
  let w' := snd (URLController.deleteShortUrl x w shortCode) in
  (∀ c, URLController.getAnalytics w' c = URLController.getAnalytics w c)
  ∧ (∀ c, URLController.getAnalytics w c = AnalyticsFail 404 "URL not found"
          ↔ URLModel.code_taken (db w) c = false)
  ∧ (fst (URLController.deleteShortUrl x w shortCode) = Deleted →
     URLController.getAnalytics w' shortCode ≠ AnalyticsFail 404 "URL not found").
Proof.
  intros w'.
  assert (Hsame : ∀ c, URLController.getAnalytics w' c = URLController.getAnalytics w c).
  { intros c. unfold URLController.getAnalytics, URLModel.getAnalytics. subst w'.
    rewrite deleteShortUrl_db. fold (hit c). rewrite delete_urls, find_code_after_flip.
    cbn [snd URLModel.delete url_analytics].
    destruct (List.find (hit c) (urls (db w))) as [u|]; [|done].
    cbn [option_map URLModel.report_row URLModel.total_clicks URLModel.unique_visitors].
    unfold flip. by destruct (hit shortCode u). }
  split; [done|]. split; [intros c; apply getAnalytics_missing|].
  intros Hdel. rewrite Hsame, getAnalytics_missing.
  rewrite deleteShortUrl_response in Hdel.
  destruct (List.find (hit shortCode) (urls (db w))) as [u|] eqn:Hfind; [|done].
  apply find_some in Hfind as [Hin Hu]. unfold hit in Hu. apply String.eqb_eq in Hu.
  intros Hfree. eapply code_free_spec in Hfree; [|exact Hin]. done.
Qed.

Lemma analytics_survive_delete_witness :
  let r := mkUrlRow 1 "3AHQXen" "http://a.example/" 0 None 2 (Some 700) "10.0.0.1" true in
  let hit1 := mkAnalyticsRow 1 (Some 1) 500 "10.0.0.2" None None in
  let hit2 := mkAnalyticsRow 2 (Some 1) 700 "10.0.0.2" None None in
  let w := mkWorld (mkDatabase [r] [hit1; hit2] 2 3) ∅ in
  URLController.getAnalytics
    (snd (URLController.deleteShortUrl (mkCtx cfg_on 900 true) w "3AHQXen")) "3AHQXen"
  = AnalyticsData "3AHQXen" "http://a.example/" 0 2 2 1 (Some 700).
Proof.
  intros r hit1 hit2 w.
  destruct (analytics_survive_delete (mkCtx cfg_on 900 true) w "3AHQXen") as (Hsame & _).
  rewrite Hsame. reflexivity.
Defined.

(** ** A deleted code stays dead *)

Lemma retired_same w w' k :
  db w' = db w →
  redis w' !! ("short:" +:+ k) = redis w !! ("short:" +:+ k) →
  retired w k → retired w' k.
Proof. unfold retired. by intros -> ->. Qed.

Lemma createShortUrl_short_none x rnd pos w ip url expiresIn k :
  retired w k →
  redis (snd (fst (URLController.createShortUrl x rnd pos w ip url expiresIn)))
    !! ("short:" +:+ k) = None.
Proof.
  intros (Htaken & Hnone & Hdead).
  unfold URLController.createShortUrl. rewrite trackSuspiciousUrl_eq.
  destruct (isSuspicious url).
  { cbn. by rewrite cache_increment_other by apply short_not_abuse. }
  pose proof (lookupExisting_other x url (db w) (redis w) ("short:" +:+ k)
                (short_not_url k url)) as Hlk.
  destruct (URLController.lookupExisting x url (db w) (redis w)) as [existingUrl m2].
  cbn [snd] in Hlk.
  destruct (_ && _); [by cbn; rewrite Hlk|].
  destruct (URLModel.create _ _ _ _ _ _ _) as [[[newUrl|] d'] p'] eqn:Hc;
    [|by cbn; rewrite Hlk].
  apply create_some in Hc as (_ & Hfree & _). cbn [fst snd redis].
  rewrite cache_set_other by apply short_not_url.
  rewrite cache_set_other; [by rewrite Hlk|].
  intros Heq. apply short_key_inj in Heq. congruence.
Qed.

Lemma redirectToOriginal_retired x w ip ua ref k :
  retired w k →
  URLController.redirectToOriginal x w ip ua ref k
  = (Fail 404 "URL not found or expired", w).
Proof.
  intros (Htaken & Hnone & Hdead).
  assert (Hget : cache.get x ("short:" +:+ k) (redis w) = None).
  { unfold cache.get, Redis.get. rewrite Hnone.
    by destruct (cache_disabled _), (redis_up x). }
  rewrite redirect_miss by done.
  destruct (URLModel.findByShortCode (now x) (db w) k) as [r|] eqn:Hf; [|done].
  unfold URLModel.findByShortCode in Hf. apply find_some in Hf as [Hin Hp].
  apply andb_true_iff in Hp as [Hp _]. apply andb_true_iff in Hp as [Hc Hact].
  apply String.eqb_eq in Hc. rewrite Forall_forall in Hdead.
  apply list_elem_of_In in Hin. pose proof (Hdead r Hin Hc) as Hoff. congruence.
Qed.

Lemma redirectToOriginal_short_none x w ip ua ref shortCode k :
  retired w k →
  redis (snd (URLController.redirectToOriginal x w ip ua ref shortCode))
    !! ("short:" +:+ k) = None.
Proof.
  intros Hret. destruct (decide (shortCode = k)) as [->|Hne].
  - rewrite redirectToOriginal_retired by done. apply Hret.
  - destruct Hret as (_ & Hnone & _). unfold URLController.redirectToOriginal.
    destruct (RateLimiter.present _); [done|].
    destruct (URLModel.findByShortCode _ _ _); [|done].
    cbn [snd redis]. rewrite cache_set_other; [done|].
    intros Heq. by apply short_key_inj in Heq.
Qed.

Lemma deleteShortUrl_short_none x w shortCode k :
  redis w !! ("short:" +:+ k) = None →
  redis (snd (URLController.deleteShortUrl x w shortCode)) !! ("short:" +:+ k) = None.
Proof.
  intros Hnone. unfold URLController.deleteShortUrl.
  destruct (URLModel.delete _ _) as [[url|] d']; cbn [snd redis]; [|done].
  unfold cache.del, Redis.del. destruct (redis_up x); [|done].
  apply lookup_delete_None. right. apply lookup_delete_None. by right.
Qed.

Lemma shorten_short_none x p w c url expiresIn isURL k :
  retired w k →
  redis (snd (App.shorten x p w c url expiresIn isURL)) !! ("short:" +:+ k) = None.
Proof.
  intros Hret. unfold App.shorten.
  pose proof (createUrlLimiter_keeps_redis x (req_ip c) (hits p) (redis w)) as Hlim.
  destruct (rateLimit RateLimiter.createUrlLimiter x (req_ip c) (hits p) (redis w))
    as [[v mem] m]. cbn [snd] in Hlim. subst m.
  destruct v as [|r]; [|apply Hret].
  assert (Hab : snd (RateLimiter.abuseDetection x (req_ip c) (redis w))
                  !! ("short:" +:+ k) = redis w !! ("short:" +:+ k)).
  { unfold RateLimiter.abuseDetection.
    destruct (RateLimiter.present _); [done|].
    destruct (RateLimiter.exceeds _ _); [|done].
    apply cache_set_other, short_not_blocked. }
  destruct (RateLimiter.abuseDetection x (req_ip c) (redis w)) as [v m']. cbn [snd] in Hab.
  assert (Hret' : retired (mkWorld (db w) m') k) by (by apply (retired_same w)).
  destruct v as [|r]; [|apply Hret'].
  destruct (validateUrlCreation url expiresIn isURL); [|apply Hret'].
  pose proof (createShortUrl_short_none x (entropy p) (drawn p) (mkWorld (db w) m')
                (req_ip c) url expiresIn k Hret') as Hcr.
  by destruct (URLController.createShortUrl _ _ _ _ _ _ _) as [[r w'] pos'].
Qed.

Lemma handle_short_none x p w c req k :
  retired w k →
  redis (snd (App.handle x p w c req)) !! ("short:" +:+ k) = None.
Proof.
  intros Hret. unfold App.handle.
  assert (Hg : snd (rateLimit (RateLimiter.globalLimiter (cfg x)) x (req_ip c)
                      (hits p) (redis w)) !! ("short:" +:+ k)
               = redis w !! ("short:" +:+ k)).
  { apply rateLimit_keeps_block. intros s key [= <-]. cbn [store_increment].
    apply cache_increment_other, short_not_ratelimit. }
  destruct (rateLimit (RateLimiter.globalLimiter (cfg x)) x (req_ip c) (hits p) (redis w))
    as [[v mem] m]. cbn [snd] in Hg.
  assert (Hret' : retired (mkWorld (db w) m) k) by (by apply (retired_same w)).
  destruct v as [|r]; [|apply Hret'].
  destruct req as [url expiresIn isURL | shortCode | shortCode].
  - by apply shorten_short_none.
  - pose proof (deleteShortUrl_short_none x (mkWorld (db w) m) shortCode k) as Hd.
    destruct (URLController.deleteShortUrl _ _ _) as [r w'].
    apply Hd, Hret'.
  - pose proof (redirectToOriginal_short_none x (mkWorld (db w) m) (req_ip c)
                  (req_userAgent c) (req_referer c) shortCode k Hret') as Hr.
    by destruct (URLController.redirectToOriginal _ _ _ _ _ _) as [r w'].
Qed.

Lemma dead_rows_map (f : UrlRow → UrlRow) k d d' :
  urls d' = map f (urls d) →
  (∀ r, short_code (f r) = short_code r) →
  (∀ r, is_active r = false → is_active (f r) = false) →
  dead_rows k d → dead_rows k d'.
Proof.
  intros Hu Hcode Hact [Htaken Hdead]. split.
  - unfold URLModel.code_taken in *. by rewrite Hu, code_taken_map.
  - rewrite Hu. clear Hu Htaken. induction Hdead as [|r l Hr Hl IH]; simpl; constructor.
    + rewrite Hcode. auto.
    + exact IH.
Qed.

Lemma dead_rows_same k d d' :
  urls d' = urls d → dead_rows k d → dead_rows k d'.
Proof.
  intros Hu. apply (dead_rows_map (λ r, r)); [by rewrite Hu, map_id | done | done].
Qed.

Lemma insert_url_dead_rows k t d shortCode originalUrl creatorIp expiresAt :
  dead_rows k d →
  dead_rows k (snd (URLModel.insert_url t d shortCode originalUrl creatorIp expiresAt)).
Proof.
  intros Hd. unfold URLModel.insert_url.
  destruct (URLModel.code_taken d shortCode) eqn:Hfree; cbn [orb snd].
  { by apply (dead_rows_same k d). }
  destruct (_ || _); cbn [snd].
  { by apply (dead_rows_same k d). }
  destruct Hd as [Htaken Hdead]. split.
  - unfold URLModel.code_taken in *. cbn [urls]. rewrite existsb_app, Htaken. done.
  - cbn [urls]. apply Forall_app. split; [done|]. constructor; [|constructor].
    cbn [short_code]. intros ->. congruence.
Qed.

Lemma recordAnalytics_dead_rows k t d urlId ip ua ref :
  dead_rows k d → dead_rows k (URLModel.recordAnalytics t d urlId ip ua ref).
Proof.
  unfold URLModel.recordAnalytics. destruct (_ && _).
  - apply (dead_rows_map
             (λ r, if decide (Some (id r) = urlId) then
                     mkUrlRow (id r) (short_code r) (original_url r) (created_at r)
                       (expires_at r) (click_count r + 1) (Some t)
                       (creator_ip r) (is_active r)
                   else r)); [done | |]; intros r; by destruct (decide _).
  - by apply dead_rows_same.
Qed.

Lemma delete_dead_rows k d shortCode :
  dead_rows k d → dead_rows k (snd (URLModel.delete d shortCode)).
Proof.
  apply (dead_rows_map (flip shortCode)); [done | apply flip_short_code |].
  intros r Hr. unfold flip. by destruct (hit shortCode r).
Qed.

Lemma handle_retired x p w c req k :
  retired w k → retired (snd (App.handle x p w c req)) k.
Proof.
  intros Hret.
  assert (Hrows : dead_rows k (db (snd (App.handle x p w c req)))).
  { apply (handle_keeps (λ d1 d2, dead_rows k d1 → dead_rows k d2)).
    - done.
    - intros. by apply insert_url_dead_rows.
    - intros. by apply recordAnalytics_dead_rows.
    - intros. by apply delete_dead_rows.
    - destruct Hret as (Ht & _ & Hd). by split. }
  destruct Hrows as [Ht Hd]. split; [done|]. split; [|done].
  by apply handle_short_none.
Qed.

Lemma run_retired evs k : ∀ s,
  retired (snd s) k → retired (snd (snd (run s evs))) k.
Proof.
  induction evs as [|ev evs IH]; intros s Hret; [done|].
  simpl.
  assert (Hs : retired (snd (snd (step s ev))) k).
  { unfold step. destruct (fst s !! ev_instance ev) as [p|]; [|done].
    pose proof (handle_retired (ev_ctx ev) p (snd s) (ev_client ev) (ev_request ev)
                  k Hret) as Hh.
    by destruct (App.handle _ _ _ _ _) as [[r p'] w']. }
  destruct (step s ev) as [r s']. specialize (IH s' Hs).
  by destruct (run s' evs) as [rs s''].
Qed.

Lemma deleteShortUrl_retires x w k :
  redis_up x = true →
  fst (URLController.deleteShortUrl x w k) = Deleted →
  retired (snd (URLController.deleteShortUrl x w k)) k.
Proof.
  intros Hup Hdel. rewrite deleteShortUrl_response in Hdel.
  destruct (List.find (hit k) (urls (db w))) as [u|] eqn:Hfind; [|done].
  apply find_some in Hfind as [Hin Hu].
  split; [|split].
  - rewrite deleteShortUrl_db, code_taken_delete. apply code_taken_spec.
    exists u. split; [done|]. by apply String.eqb_eq.
  - unfold URLController.deleteShortUrl.
    destruct (URLModel.delete (db w) k) as [[url|] d'] eqn:Hd.
    + unfold cache.del, Redis.del. rewrite Hup. cbn [snd redis].
      rewrite lookup_delete_ne by (apply not_eq_sym, short_not_url).
      apply lookup_delete_eq.
    + exfalso. assert (Hres : fst (URLModel.delete (db w) k) = None) by (by rewrite Hd).
      rewrite delete_result in Hres.
      destruct (List.find (hit k) (urls (db w))) as [u'|] eqn:Hf; [done|].
      eapply find_none in Hf; [|exact Hin]. congruence.
  - rewrite deleteShortUrl_db, delete_urls. apply Forall_forall. intros r Hr Hc.
    apply list_elem_of_In, in_map_iff in Hr as (r0 & <- & _).
    rewrite flip_short_code in Hc. apply flip_inactive. by apply String.eqb_eq.
Qed.

(** X12. A deleted code stays dead. Once [deleteShortUrl] has answered
    200 with Redis reachable, the code is retired for good: whatever
    requests the instances serve afterwards, at whatever times and in
    whatever state of the cache switch or of Redis, some row still carries
    the code, none of its rows is active, the cache has no entry for it,
    and resolving it answers 404 (or the limiter's 429). *)
Theorem deleted_code_stays_dead (x : Ctx) (w : World) (k : string)
    (procs : list Process) (evs : list Event) :
  redis_up x = true →
  fst (URLController.deleteShortUrl x w k) = Deleted →
  let w' := snd (snd (run (procs, snd (URLController.deleteShortUrl x w k)) evs)) in
  retired w' k
  ∧ (∀ x' ip ua ref,
       URLController.redirectToOriginal x' w' ip ua ref k
       = (Fail 404 "URL not found or expired", w'))
  ∧ (∀ x' p c,
       fst (fst (App.handle x' p w' c (GET_code k))) = Fail 404 "URL not found or expired"
       ∨ fst (fst (App.handle x' p w' c (GET_code k)))
         = Fail 429 (message (RateLimiter.globalLimiter (cfg x')))).
Proof.
  intros Hup Hdel w'.
  assert (Hret : retired w' k).
  { apply (run_retired evs k (procs, _)). by apply deleteShortUrl_retires. }
  split; [done|]. split.
  - intros x' ip ua ref. by apply redirectToOriginal_retired.
  - intros x' p c. unfold App.handle.
    assert (Hg : snd (rateLimit (RateLimiter.globalLimiter (cfg x')) x' (req_ip c)
                        (hits p) (redis w')) !! ("short:" +:+ k)
                 = redis w' !! ("short:" +:+ k)).
    { apply rateLimit_keeps_block. intros s key [= <-]. cbn [store_increment].
      apply cache_increment_other, short_not_ratelimit. }
    unfold rateLimit in *. cbn [store RateLimiter.globalLimiter] in *.
    destruct (store_increment _ x' (req_ip c) (redis w')) as [n m].
    destruct (_ <? n); cbn [fst snd] in *; [by right|]. left.
    rewrite (redirectToOriginal_retired x' (mkWorld (db w') m)); [done|].
    by apply (retired_same w').
Qed.

Lemma deleted_code_stays_dead_witness :
  let r := mkUrlRow 1 "3AHQXen" "http://a.example/" 0 None 0 None "10.0.0.1" true in
  let cached := mkEntry (JRow r) (Some 86400000) in
  let w := mkWorld (mkDatabase [r] [] 2 1)
             {[ "short:3AHQXen" := cached; "url:http://a.example/" := cached ]} in
  let x := mkCtx cfg_on 5000 true in
  let go t req := mkEvent (mkCtx cfg_on t true) 0 visitor req in
  let evs := [ go 6000 (GET_code "3AHQXen");
               go 7000 (POST_shorten "http://a.example/" None true);
               go 8000 (DELETE_code "3AHQXen") ] in
  fst (URLController.redirectToOriginal (mkCtx cfg_on 9000 true)
         (snd (snd (run ([fresh_process], snd (URLController.deleteShortUrl x w "3AHQXen"))
                        evs)))
         "10.0.0.2" None None "3AHQXen")
  = Fail 404 "URL not found or expired".
Proof.
  intros r cached w x go evs.
  destruct (deleted_code_stays_dead x w "3AHQXen" [fresh_process] evs) as (_ & Hres & _).
  - reflexivity.
  - vm_compute. reflexivity.
  - by rewrite Hres.
Defined.

(** ** Creating again after a delete *)

Lemma newest_in rows r : URLModel.newest rows = Some r → In r rows.
Proof.
  unfold URLModel.newest.
  assert (H : ∀ init,
    fold_left
      (λ best r0,
         match best with
         | None => Some r0
         | Some b => if created_at b <=? created_at r0 then Some r0 else Some b
         end) rows init = Some r →
    init = Some r ∨ In r rows).
  { induction rows as [|a rows IH]; intros init; simpl; [by left|].
    intros Hf. apply IH in Hf as [Hinit | Hin]; [|by right; right].
    destruct init as [b|].
    - destruct (created_at b <=? created_at a); injection Hinit as <-; auto.
    - injection Hinit as <-. auto. }
  intros Hf. by apply H in Hf as [? | ?].
Qed.

(** X13. A deleted code is not handed out again. After a delete that
    found a row (Redis reachable), a creation request for the URL of that
    row never answers with the deleted code: it reuses another, still
    active, row of that URL, or inserts a row under a code no row has. *)
Theorem create_after_delete_avoids_code (x x' : Ctx) (w : World) (k : string)
    (u : UrlRow) (rnd : Entropy) (pos : nat) (ip : string) (expiresIn : option Z) :
  redis_up x = true →
  fst (URLModel.delete (db w) k) = Some u →
  let w' := snd (URLController.deleteShortUrl x w k) in
  let out := URLController.createShortUrl x' rnd pos w' ip (original_url u) expiresIn in
  (∀ c o, fst (fst out) = Existing c o → c ≠ Some k)
  ∧ (∀ r, fst (fst out) = Created r → short_code r ≠ k).
Proof.
  intros Hup Hdel w' out.
  assert (Hresp : fst (URLController.deleteShortUrl x w k) = Deleted).
  { rewrite deleteShortUrl_response. rewrite delete_result in Hdel.
    by destruct (List.find (hit k) (urls (db w))). }
  pose proof (deleteShortUrl_retires x w k Hup Hresp) as (Htaken & _ & Hdead).
  fold w' in Htaken, Hdead.
  assert (Hurl : redis w' !! ("url:" +:+ original_url u) = None).
  { subst w'. unfold URLController.deleteShortUrl.
    destruct (URLModel.delete (db w) k) as [[url|] d']; [|done].
    cbn [fst] in Hdel. injection Hdel as ->.
    unfold cache.del, Redis.del. rewrite Hup. cbn [snd redis]. apply lookup_delete_eq. }
  assert (Hget : cache.get x' ("url:" +:+ original_url u) (redis w') = None).
  { unfold cache.get, Redis.get. rewrite Hurl.
    by destruct (cache_disabled _), (redis_up x'). }
  subst out. split.
  - intros c o. unfold URLController.createShortUrl. rewrite trackSuspiciousUrl_eq.
    destruct (isSuspicious _); [done|].
    unfold URLController.lookupExisting. rewrite Hget. cbn [RateLimiter.present].
    destruct (URLModel.findByOriginalUrl (now x') (db w') (original_url u))
      as [r0|] eqn:Hf.
    + cbn [RateLimiter.present truthy andb].
      destruct (negb (URLController.given expiresIn)).
      * cbn. intros [= <- <-] [= Hk].
        unfold URLModel.findByOriginalUrl in Hf. apply newest_in in Hf.
        apply filter_In in Hf as [Hin Hp].
        apply andb_true_iff in Hp as [Hp _]. apply andb_true_iff in Hp as [_ Hact].
        rewrite Forall_forall in Hdead. apply list_elem_of_In in Hin.
        pose proof (Hdead r0 Hin Hk). congruence.
      * by destruct (URLModel.create _ _ _ _ _ _ _) as [[[newUrl|] d'] p'].
    + cbn [RateLimiter.present andb].
      by destruct (URLModel.create _ _ _ _ _ _ _) as [[[newUrl|] d'] p'].
  - intros r Hr.
    destruct (URLController.createShortUrl x' rnd pos w' ip (original_url u) expiresIn)
      as [[r' w1] p1] eqn:Hc. cbn [fst] in Hr. subst r'.
    apply createShortUrl_created in Hc as (_ & _ & Hcreate & _).
    apply create_some in Hcreate as (_ & Hfree & _). congruence.
Qed.

Lemma create_after_delete_avoids_code_witness :
  let r := mkUrlRow 1 "3AHQXen" "http://a.example/" 0 None 0 None "10.0.0.1" true in
  let cached := mkEntry (JRow r) (Some 86400000) in
  let w := mkWorld (mkDatabase [r] [] 2 1)
             {[ "short:3AHQXen" := cached; "url:http://a.example/" := cached ]} in
  let x := mkCtx cfg_on 5000 true in
  let out := URLController.createShortUrl x stride 0
               (snd (URLController.deleteShortUrl x w "3AHQXen"))
               "10.0.0.2" "http://a.example/" None in
  ∃ r', fst (fst out) = Created r' ∧ short_code r' ≠ "3AHQXen".
Proof.
  intros r cached w x out.
  destruct (create_after_delete_avoids_code x x w "3AHQXen" (URLModel.deactivate r)
              stride 0%nat "10.0.0.2" None) as (_ & Hnew).
  - reflexivity.
  - reflexivity.
  - eexists. split; [vm_compute; reflexivity|]. apply Hnew. vm_compute. reflexivity.
Defined.

(** ** The clean-up of expired rows *)

Lemma clean_expired_urls_rows t d :
  urls (URLModel.clean_expired_urls t d) = map (clean_row t) (urls d).
Proof. reflexivity. Qed.

Lemma clean_row_lookup t t' (sel : UrlRow → bool) r :
  t ≤ t' →
  (∀ r0, sel (URLModel.deactivate r0) = sel r0) →
  let P := λ r0, sel r0 && is_active r0 && not_expired t' r0 in
  P (clean_row t r) = P r ∧ (P r = true → clean_row t r = r).
Proof.
  intros Hle Hsel P. subst P. unfold clean_row.
  destruct (expires_at r) as [e|] eqn:He; [|done].
  destruct (e <? t) eqn:Hlt; cbn [andb]; [|done].
  destruct (is_active r) eqn:Hact; cbv iota; [|by rewrite Hact].
  apply Z.ltb_lt in Hlt.
  assert (Hexp : not_expired t' r = false).
  { unfold not_expired. rewrite He. apply Z.ltb_ge. lia. }
  rewrite Hsel, Hexp, !andb_false_r. cbn [URLModel.deactivate is_active].
  done.
Qed.

Lemma clean_row_idem t r : clean_row t (clean_row t r) = clean_row t r.
Proof.
  unfold clean_row. destruct (expires_at r) as [e|] eqn:He; [|by rewrite He].
  destruct ((e <? t) && is_active r) eqn:Hc; [|by rewrite He, Hc].
  cbn [URLModel.deactivate expires_at is_active]. by rewrite He, andb_false_r.
Qed.

Lemma find_after_clean (P : UrlRow → bool) (f : UrlRow → UrlRow) rows :
  (∀ r, P (f r) = P r ∧ (P r = true → f r = r)) →
  List.find P (map f rows) = List.find P rows
  ∧ List.filter P (map f rows) = List.filter P rows.
Proof.
  intros Hf. induction rows as [|r rows [IHfind IHfilter]]; [done|]. simpl.
  destruct (Hf r) as [HP Hsame]. rewrite HP.
  destruct (P r); [rewrite (Hsame eq_refl), IHfilter | ]; done.
Qed.

(** X14. The clean-up of schema.sql is invisible to the look-ups. The
    rows [clean_expired_urls] switches off at an instant are rows that
    neither look-up would return at that instant or later: the look-ups
    by code and by URL give the same rows before and after it. It keeps
    codes and ids, only ever switches rows off, and running it twice is
    running it once. *)
Theorem clean_expired_urls_invisible (t t' : Z) (d : Database) :
  t ≤ t' →
  let d' := URLModel.clean_expired_urls t d in
  (∀ c, URLModel.findByShortCode t' d' c = URLModel.findByShortCode t' d c)
  ∧ (∀ url, URLModel.findByOriginalUrl t' d' url = URLModel.findByOriginalUrl t' d url)
  ∧ db_evolves d d'
  ∧ URLModel.clean_expired_urls t d' = d'.
Proof.
  intros Hle d'. split; [|split; [|split]].
  - intros c. unfold URLModel.findByShortCode. subst d'.
    rewrite clean_expired_urls_rows.
    apply (find_after_clean
             (λ r, (short_code r =? c)%string && is_active r && not_expired t' r)).
    intros r. by apply (clean_row_lookup t t' (λ r0, (short_code r0 =? c)%string)).
  - intros url. unfold URLModel.findByOriginalUrl. subst d'.
    rewrite clean_expired_urls_rows. f_equal.
    apply (find_after_clean
             (λ r, (original_url r =? url)%string && is_active r && not_expired t' r)).
    intros r. by apply (clean_row_lookup t t' (λ r0, (original_url r0 =? url)%string)).
  - split.
    + exists (urls d'), []. rewrite app_nil_r. split; [done|]. subst d'.
      rewrite clean_expired_urls_rows. apply rows_evolve_map. intros r.
      unfold clean_row. destruct (expires_at r); [|apply row_evolves_refl].
      destruct (_ && _); [|apply row_evolves_refl].
      unfold row_evolves. cbn. repeat split; try done; lia.
    + exists []. by rewrite app_nil_r.
  - subst d'. unfold URLModel.clean_expired_urls at 1. cbn [url_analytics urls_id_seq
      url_analytics_id_seq]. rewrite clean_expired_urls_rows.
    unfold URLModel.clean_expired_urls. f_equal.
    fold (clean_row t). rewrite List.map_map. apply List.map_ext. intros r.
    apply clean_row_idem.
Qed.

Lemma clean_expired_urls_invisible_witness :
  let gone := mkUrlRow 1 "3AHQXen" "http://a.example/" 0 (Some 60000) 0 None
                "10.0.0.1" true in
  let kept := mkUrlRow 2 "AHQXenu" "http://b.example/" 0 None 0 None "10.0.0.1" true in
  let d := mkDatabase [gone; kept] [] 3 1 in
  is_active <$> urls (URLModel.clean_expired_urls 61000 d) = [false; true]
  ∧ URLModel.findByShortCode 70000 (URLModel.clean_expired_urls 61000 d) "AHQXenu"
    = Some kept.
Proof.
  intros gone kept d. split; [reflexivity|].
  destruct (clean_expired_urls_invisible 61000 70000 d) as (Hcode & _).
  - lia.
  - rewrite Hcode. reflexivity.
Defined.

(** ** Cached rows and the rows of the store *)

Lemma evolves_in d d' r :
  db_evolves d d' → In r (urls d) → ∃ r', In r' (urls d') ∧ row_evolves r r'.
Proof.
  intros [(old & new & Hu & Hrows) _] Hin.
  assert (H : ∃ r', In r' old ∧ row_evolves r r').
  { clear Hu. induction Hrows as [|a a' l l' Ha Hl IH]; [done|].
    destruct Hin as [-> | Hin].
    - exists a'. split; [by left | done].
    - destruct (IH Hin) as (r' & Hin' & Hrr'). exists r'. split; [by right | done]. }
  destruct H as (r' & Hin' & Hrr'). exists r'. split; [|done].
  rewrite Hu. apply in_or_app. by left.
Qed.

Lemma cache_rows_step w w' :
  cache_rows_ok w →
  db_evolves (db w) (db w') →
  (∀ c e, redis w' !! ("short:" +:+ c) = Some e →
     redis w !! ("short:" +:+ c) = Some e
     ∨ ∃ r r', val e = JRow r ∧ short_code r = c
               ∧ In r' (urls (db w')) ∧ row_evolves r r') →
  cache_rows_ok w'.
Proof.
  intros Hok Hev Hredis c e He.
  destruct (Hredis c e He) as [He0 | Hnew]; [|done].
  destruct (Hok c e He0) as (r & r' & Hv & Hc & Hin & Hrr).
  destruct (evolves_in _ _ _ Hev Hin) as (r'' & Hin' & Hrr').
  exists r, r''. split; [done|]. split; [done|]. split; [done|].
  by eapply row_evolves_trans.
Qed.

Lemma cache_rows_same w w' :
  db w' = db w →
  (∀ k, redis w' !! ("short:" +:+ k) = redis w !! ("short:" +:+ k)) →
  cache_rows_ok w → cache_rows_ok w'.
Proof.
  intros Hd Hr Hok c e He. rewrite Hr in He. rewrite Hd. by apply Hok.
Qed.

Lemma cache_set_short x k r ttl m c e :
  cache.set x ("short:" +:+ k) (JRow r) ttl m !! ("short:" +:+ c) = Some e →
  m !! ("short:" +:+ c) = Some e ∨ (c = k ∧ val e = JRow r).
Proof.
  destruct (decide (c = k)) as [->|Hne].
  - rewrite cache_set_eq. destruct (set_effective x ttl); [|by left].
    rewrite lookup_insert_eq. intros [= <-]. by right.
  - rewrite cache_set_other; [by left|]. intros Heq. by apply short_key_inj in Heq.
Qed.

Lemma createShortUrl_evolves x rnd pos w ip url expiresIn :
  db_evolves (db w)
    (db (snd (fst (URLController.createShortUrl x rnd pos w ip url expiresIn)))).
Proof.
  pose proof (createShortUrl_db x rnd pos w ip url expiresIn) as Hdb. cbv zeta in Hdb.
  destruct Hdb as [-> | (code & e & ->)];
    [apply db_evolves_refl | apply insert_url_evolves].
Qed.

Lemma redirectToOriginal_evolves x w ip ua ref shortCode :
  db_evolves (db w) (db (snd (URLController.redirectToOriginal x w ip ua ref shortCode))).
Proof.
  pose proof (redirectToOriginal_db x w ip ua ref shortCode) as Hdb. cbv zeta in Hdb.
  destruct Hdb as [-> | (urlId & ->)];
    [apply db_evolves_refl | apply recordAnalytics_evolves].
Qed.

Lemma createShortUrl_cache_rows x rnd pos w ip url expiresIn :
  cache_rows_ok w →
  cache_rows_ok (snd (fst (URLController.createShortUrl x rnd pos w ip url expiresIn))).
Proof.
  intros Hok.
  apply (cache_rows_step w); [done | apply createShortUrl_evolves |].
  destruct (URLController.createShortUrl x rnd pos w ip url expiresIn)
    as [[resp w1] pos1] eqn:Hout. cbn [fst snd].
  destruct resp as [newUrl| | | | |].
  1:{ pose proof Hout as Hc.
      apply createShortUrl_created in Hc as (_ & _ & Hcreate & Hredis).
      apply create_some in Hcreate as (_ & _ & Hurls).
      intros c e. rewrite Hredis.
      rewrite cache_set_other by apply short_not_url.
      intros [He | [-> Hv]]%cache_set_short.
      - left.
        by rewrite lookupExisting_other in He by apply short_not_url.
      - right. exists newUrl, newUrl. split; [done|]. split; [done|].
        split; [|apply row_evolves_refl]. rewrite Hurls. apply in_or_app. right. by left. }
  all: intros c e He; left; revert Hout He;
    unfold URLController.createShortUrl; rewrite trackSuspiciousUrl_eq;
    pose proof (lookupExisting_other x url (db w) (redis w) ("short:" +:+ c)
                  (short_not_url c url)) as Hlk;
    destruct (isSuspicious url);
    [ intros [= <- <- <-]; cbn [redis];
      by rewrite cache_increment_other by apply short_not_abuse
    | destruct (URLController.lookupExisting x url (db w) (redis w)) as [existingUrl m2];
      cbn [snd] in Hlk;
      destruct (_ && _);
      [ intros [= <- <- <-]; cbn [redis]; by rewrite Hlk
      | destruct (URLModel.create _ _ _ _ _ _ _) as [[[newUrl|] d'] p'];
        intros [= <- <- <-]; cbn [redis]; by rewrite Hlk ] ].
Qed.

Lemma redirectToOriginal_cache_rows x w ip ua ref shortCode :
  cache_rows_ok w →
  cache_rows_ok (snd (URLController.redirectToOriginal x w ip ua ref shortCode)).
Proof.
  intros Hok.
  apply (cache_rows_step w); [done | apply redirectToOriginal_evolves |].
  pose proof (redirectToOriginal_evolves x w ip ua ref shortCode) as Hev. revert Hev.
  unfold URLController.redirectToOriginal.
  destruct (RateLimiter.present (cache.get x ("short:" +:+ shortCode) (redis w)));
    [by left|].
  destruct (URLModel.findByShortCode (now x) (db w) shortCode) as [r|] eqn:Hf; [|by left].
  cbn [snd db redis]. intros Hev c e [He | [-> Hv]]%cache_set_short; [by left|]. right.
  apply find_some in Hf as [Hin Hp].
  apply andb_true_iff in Hp as [Hp _]. apply andb_true_iff in Hp as [Hp _].
  apply String.eqb_eq in Hp.
  destruct (evolves_in _ _ _ Hev Hin) as (r' & Hin' & Hrr').
  by exists r, r'.
Qed.

Lemma deleteShortUrl_cache_rows x w shortCode :
  cache_rows_ok w →
  cache_rows_ok (snd (URLController.deleteShortUrl x w shortCode)).
Proof.
  intros Hok. apply (cache_rows_step w); [done | |].
  - rewrite deleteShortUrl_db. apply delete_evolves.
  - intros c e. unfold URLController.deleteShortUrl.
    destruct (URLModel.delete (db w) shortCode) as [[url|] d']; cbn [snd redis].
    + unfold cache.del, Redis.del. destruct (redis_up x); [|by left].
      intros He. left.
      apply lookup_delete_Some in He as [_ He].
      by apply lookup_delete_Some in He as [_ He].
    + by left.
Qed.

Lemma shorten_cache_rows x p w c url expiresIn isURL :
  cache_rows_ok w → cache_rows_ok (snd (App.shorten x p w c url expiresIn isURL)).
Proof.
  intros Hok. unfold App.shorten.
  pose proof (createUrlLimiter_keeps_redis x (req_ip c) (hits p) (redis w)) as Hlim.
  destruct (rateLimit RateLimiter.createUrlLimiter x (req_ip c) (hits p) (redis w))
    as [[v mem] m]. cbn [snd] in Hlim. subst m.
  assert (Hw : cache_rows_ok (mkWorld (db w) (redis w))) by (by destruct w).
  destruct v as [|r]; [|done].
  assert (Hab : ∀ k, snd (RateLimiter.abuseDetection x (req_ip c) (redis w))
                       !! ("short:" +:+ k) = redis w !! ("short:" +:+ k)).
  { intros k. unfold RateLimiter.abuseDetection.
    destruct (RateLimiter.present _); [done|].
    destruct (RateLimiter.exceeds _ _); [|done].
    apply cache_set_other, short_not_blocked. }
  destruct (RateLimiter.abuseDetection x (req_ip c) (redis w)) as [v m']. cbn [snd] in Hab.
  assert (Hw' : cache_rows_ok (mkWorld (db w) m')) by (by apply (cache_rows_same w)).
  destruct v as [|r]; [|done].
  destruct (validateUrlCreation url expiresIn isURL); [|done].
  pose proof (createShortUrl_cache_rows x (entropy p) (drawn p) (mkWorld (db w) m')
                (req_ip c) url expiresIn Hw') as Hcr.
  by destruct (URLController.createShortUrl _ _ _ _ _ _ _) as [[r w'] pos'].
Qed.

Lemma handle_cache_rows x p w c req :
  cache_rows_ok w → cache_rows_ok (snd (App.handle x p w c req)).
Proof.
  intros Hok. unfold App.handle.
  assert (Hg : ∀ k, snd (rateLimit (RateLimiter.globalLimiter (cfg x)) x (req_ip c)
                           (hits p) (redis w)) !! ("short:" +:+ k)
                    = redis w !! ("short:" +:+ k)).
  { intros k. apply rateLimit_keeps_block. intros s key [= <-]. cbn [store_increment].
    apply cache_increment_other, short_not_ratelimit. }
  destruct (rateLimit (RateLimiter.globalLimiter (cfg x)) x (req_ip c) (hits p) (redis w))
    as [[v mem] m]. cbn [snd] in Hg.
  assert (Hw : cache_rows_ok (mkWorld (db w) m)) by (by apply (cache_rows_same w)).
  destruct v as [|r]; [|done].
  destruct req as [url expiresIn isURL | shortCode | shortCode].
  - by apply shorten_cache_rows.
  - pose proof (deleteShortUrl_cache_rows x _ shortCode Hw) as Hd.
    by destruct (URLController.deleteShortUrl _ _ _).
  - pose proof (redirectToOriginal_cache_rows x _ (req_ip c) (req_userAgent c)
                  (req_referer c) shortCode Hw) as Hr.
    by destruct (URLController.redirectToOriginal _ _ _ _ _ _).
Qed.

Lemma run_cache_rows evs : ∀ s,
  cache_rows_ok (snd s) → cache_rows_ok (snd (snd (run s evs))).
Proof.
  induction evs as [|ev evs IH]; intros s Hok; [done|].
  simpl.
  assert (Hs : cache_rows_ok (snd (snd (step s ev)))).
  { unfold step. destruct (fst s !! ev_instance ev) as [p|]; [|done].
    pose proof (handle_cache_rows (ev_ctx ev) p (snd s) (ev_client ev) (ev_request ev)
                  Hok) as Hh.
    by destruct (App.handle _ _ _ _ _) as [[r p'] w']. }
  destruct (step s ev) as [r s']. specialize (IH s' Hs).
  by destruct (run s' evs) as [rs s''].
Qed.

(** What a resolve request does, given that the cache holds snapshots:
    it answers 404 and changes nothing, or it redirects to the URL of a
    row that carries the code and records one access for that row. *)
Lemma redirect_found x w ip ua ref k :
  cache_rows_ok w →
  URLController.redirectToOriginal x w ip ua ref k
  = (Fail 404 "URL not found or expired", w)
  ∨ ∃ r m', In r (urls (db w)) ∧ short_code r = k
      ∧ URLController.redirectToOriginal x w ip ua ref k
        = (Redirect (Some (original_url r)),
           mkWorld (URLModel.recordAnalytics (now x) (db w) (Some (id r)) ip ua ref) m').
Proof.
  intros Hok. unfold URLController.redirectToOriginal.
  destruct (cache.get x ("short:" +:+ k) (redis w)) as [v|] eqn:Hget.
  - apply cache_get_some in Hget as (_ & _ & e & He & _ & Hv).
    destruct (Hok k e He) as (r & r' & Hval & Hc & Hin & Hrr).
    destruct Hrr as (Hid & Hcode & Hurl & _).
    rewrite Hval in Hv. subst v. cbn [RateLimiter.present truthy].
    right. exists r', (redis w). split; [done|]. split; [congruence|].
    cbn. by rewrite Hid, Hurl.
  - cbn [RateLimiter.present].
    destruct (URLModel.findByShortCode (now x) (db w) k) as [r|] eqn:Hf; [|by left].
    right. apply find_some in Hf as [Hin Hp].
    apply andb_true_iff in Hp as [Hp _]. apply andb_true_iff in Hp as [Hp _].
    apply String.eqb_eq in Hp. eexists r, _. split; [done|]. split; [done|]. reflexivity.
Qed.

(** X15. The cache holds snapshots of the store. If every [short:] entry
    of the cache holds an earlier state of a row that carries that code
    (an empty cache does), then after any requests served by any instances
    it still does; and whatever a resolve request is then redirected to,
    from the cache or from the store, is the URL that a row of the store
    has under the requested code. *)
Theorem cached_rows_are_snapshots (s : list Process * World) (evs : list Event) :
  cache_rows_ok (snd s) →
  let w' := snd (snd (run s evs)) in
  cache_rows_ok w'
  ∧ ∀ x ip ua ref k o,
      fst (URLController.redirectToOriginal x w' ip ua ref k) = Redirect o →
      ∃ r, In r (urls (db w')) ∧ short_code r = k ∧ o = Some (original_url r).
Proof.
  intros Hok w'.
  assert (Hok' : cache_rows_ok w') by (by apply run_cache_rows).
  split; [done|]. intros x ip ua ref k o.
  destruct (redirect_found x w' ip ua ref k Hok') as [-> | (r & m' & Hin & Hc & ->)];
    [done|].
  cbn [fst]. intros [= <-]. by exists r.
Qed.

Lemma cached_rows_are_snapshots_witness :
  let s := ([fresh_process], mkWorld (mkDatabase [] [] 1 1) ∅) in
  let go t req := mkEvent (mkCtx cfg_on t true) 0 visitor req in
  let evs := [ go 0 (POST_shorten "http://a.example/" None true);
               go 1000 (GET_code "3AHQXen") ] in
  cache_rows_ok (snd (snd (run s evs))).
Proof.
  intros s go evs. apply (cached_rows_are_snapshots s evs).
  intros c e He. cbn in He. by rewrite lookup_empty in He.
Defined.

(** ** Every redirect is counted once *)

Lemma find_code_map (f : UrlRow → UrlRow) c rows :
  (∀ r, short_code (f r) = short_code r) →
  List.find (hit c) (map f rows) = option_map f (List.find (hit c) rows).
Proof.
  intros Hf. induction rows as [|r rows IH]; simpl; [done|].
  unfold hit at 1. rewrite Hf. fold (hit c r). by destruct (hit c r).
Qed.

Lemma getAnalytics_after_record t d r ip ua ref c :
  store_ok d → In r (urls d) →
  option_map URLModel.total_clicks
    (URLModel.getAnalytics (URLModel.recordAnalytics t d (Some (id r)) ip ua ref) c)
  = option_map
      (λ n, n + (if decide (c = short_code r ∧ (String.length ip <= 45)%nat)
                 then 1 else 0))
      (option_map URLModel.total_clicks (URLModel.getAnalytics d c)).
Proof.
  intros (Hcodes & Hids & _) Hin. unfold URLModel.recordAnalytics.
  assert (Hfk : existsb (λ r0, id r0 =? id r) (urls d) = true).
  { apply existsb_exists. exists r. split; [done | apply Z.eqb_refl]. }
  rewrite Hfk. cbn [andb].
  unfold URLModel.getAnalytics. fold (hit c).
  destruct (Z.of_nat (String.length ip) <=? 45) eqn:Hlen; cbn [urls url_analytics].
  - apply Z.leb_le in Hlen.
    unfold URLModel.increment_click_count. rewrite find_code_map.
    2:{ intros r0. by destruct (decide _). }
    destruct (List.find (hit c) (urls d)) as [u|] eqn:Hfind; [|done].
    apply find_some in Hfind as [Hu Hc]. unfold hit in Hc. apply String.eqb_eq in Hc.
    cbn [option_map URLModel.total_clicks]. f_equal.
    match goal with
    | |- context [id (if ?b then ?a else u)] =>
        replace (id (if b then a else u)) with (id u) by (by destruct b)
    end.
    rewrite List.filter_app, length_app, Nat2Z.inj_add. f_equal.
    cbn [List.filter url_id].
    destruct (decide (c = short_code r ∧ (String.length ip <= 45)%nat)) as [[Hk _] | Hn].
    + assert (u = r) by (eapply (NoDup_map_eq short_code); eauto; congruence).
      subst u. by rewrite bool_decide_true.
    + rewrite bool_decide_false; [done|]. intros [= Hid].
      assert (r = u) by (eapply (NoDup_map_eq id); eauto).
      subst u. apply Hn. split; [done | lia].
  - apply Z.leb_gt in Hlen.
    destruct (List.find (hit c) (urls d)) as [u|]; [|done].
    cbn [option_map URLModel.total_clicks]. f_equal.
    destruct (decide _) as [[_ Hle] | _]; lia.
Qed.

(** X16. Every redirect is counted once. With unique codes and ids in
    the store and snapshots in the cache, a resolve request either
    answers 404 and changes nothing, or redirects and adds exactly one to
    the [totalClicks] the analytics read reports for the requested code,
    whether the cache or the store served it, and nothing to that of any
    other code. The one exception is a client address longer than the 45
    characters of [ip_address]: the redirect goes out and is not counted. *)
Theorem redirect_is_counted (x : Ctx) (w : World) (ip : string)
    (ua ref : option string) (k : string) :
  cache_rows_ok w →
  store_ok (db w) →
  let out := URLController.redirectToOriginal x w ip ua ref k in
  let clicks := λ d c, option_map URLModel.total_clicks (URLModel.getAnalytics d c) in
  (fst out = Fail 404 "URL not found or expired" ∧ snd out = w)
  ∨ ((∃ o, fst out = Redirect o)
     ∧ ∀ c, clicks (db (snd out)) c
            = option_map
                (λ n, n + (if decide (c = k ∧ (String.length ip <= 45)%nat)
                           then 1 else 0))
                (clicks (db w) c)).
Proof.
  intros Hok Hstore out clicks. subst out clicks.
  destruct (redirect_found x w ip ua ref k Hok) as [-> | (r & m' & Hin & <- & ->)];
    [by left|].
  right. split; [by eexists|]. intros c. cbn [fst snd db].
  by apply getAnalytics_after_record.
Qed.

Lemma redirect_is_counted_witness :
  let r0 := mkUrlRow 1 "3AHQXen" "http://a.example/" 0 None 0 None "10.0.0.1" true in
  let r := mkUrlRow 1 "3AHQXen" "http://a.example/" 0 None 1 (Some 500) "10.0.0.1" true in
  let seen := mkAnalyticsRow 1 (Some 1) 500 "10.0.0.2" None None in
  let w := mkWorld (mkDatabase [r] [seen] 2 2)
             {[ "short:3AHQXen" := mkEntry (JRow r0) (Some 86400000) ]} in
  let out := URLController.redirectToOriginal (mkCtx cfg_on 900 true) w
               "10.0.0.3" None None "3AHQXen" in
  option_map URLModel.total_clicks (URLModel.getAnalytics (db (snd out)) "3AHQXen")
  = Some 2.
Proof.
  intros r0 r seen w out.
  destruct (redirect_is_counted (mkCtx cfg_on 900 true) w "10.0.0.3" None None "3AHQXen")
    as [[Hfail _] | [_ Hcount]].
  - intros c e He. unfold w in He. cbn [redis] in He.
    apply lookup_singleton_Some in He as [Hk <-].
    apply (short_key_inj "3AHQXen" c) in Hk. subst c.
    exists r0, r. split; [done|]. split; [done|]. split; [by left|].
    unfold row_evolves. cbn. repeat split; try done; lia.
  - unfold store_ok. cbn. repeat split; repeat constructor; set_solver.
  - discriminate Hfail.
  - fold out in Hcount. rewrite Hcount. reflexivity.
Defined.

(** ** The click counter the model also exports *)

(** X17. [incrementClickCount] repeats the trigger. What it does to the
    rows is what the trigger of schema.sql does when an access to that id
    is recorded, without recording one: called for the id of a row whose
    count agrees with its recorded accesses, it leaves the count one ahead
    of them. The handlers never call it; the count is kept by the trigger
    alone. *)
Theorem incrementClickCount_repeats_trigger (t : Z) (d : Database) (i : Z) :
  (∀ n ip ua ref,
     urls (URLModel.incrementClickCount t d i)
     = URLModel.increment_click_count (mkAnalyticsRow n (Some i) t ip ua ref) (urls d))
  ∧ url_analytics (URLModel.incrementClickCount t d i) = url_analytics d
  ∧ (clicks_ok d → (∃ r, In r (urls d) ∧ id r = i) →
     ¬ clicks_ok (URLModel.incrementClickCount t d i)).
Proof.
  split; [|split; [done|]].
  - intros n ip ua ref. unfold URLModel.incrementClickCount, URLModel.increment_click_count.
    cbn [urls url_id accessed_at]. apply List.map_ext. intros r.
    destruct (Z.eqb_spec (id r) i) as [-> | Hne].
    + by rewrite decide_True.
    + rewrite decide_False; [done|]. by intros [= ?].
  - intros [Hurls _] (r & Hin & <-) [Hurls' _].
    rewrite Forall_forall in Hurls. rewrite Forall_forall in Hurls'.
    pose proof Hin as Hr. apply list_elem_of_In, Hurls in Hr. destruct Hr as [_ Hcount].
    set (r' := mkUrlRow (id r) (short_code r) (original_url r) (created_at r)
                 (expires_at r) (click_count r + 1) (Some t) (creator_ip r) (is_active r)).
    assert (Hin' : In r' (urls (URLModel.incrementClickCount t d (id r)))).
    { unfold URLModel.incrementClickCount. cbn [urls]. apply in_map_iff.
      exists r. split; [by rewrite Z.eqb_refl | exact Hin]. }
    apply list_elem_of_In, Hurls' in Hin' as [_ Hcount'].
    unfold accesses in *. cbn [URLModel.incrementClickCount url_analytics r' id
      click_count] in Hcount'. lia.
Qed.

Lemma incrementClickCount_repeats_trigger_witness :
  let r := mkUrlRow 1 "3AHQXen" "http://a.example/" 0 None 1 (Some 500) "10.0.0.1" true in
  let seen := mkAnalyticsRow 1 (Some 1) 500 "10.0.0.2" None None in
  let d := mkDatabase [r] [seen] 2 2 in
  clicks_ok d ∧ ¬ clicks_ok (URLModel.incrementClickCount 900 d 1).
Proof.
  intros r seen d.
  assert (Hok : clicks_ok d).
  { split; repeat constructor. intros i [= <-]. reflexivity. }
  split; [exact Hok|].
  destruct (incrementClickCount_repeats_trigger 900 d 1) as (_ & _ & Hbreaks).
  apply Hbreaks; [exact Hok|]. exists r. split; [by left | reflexivity].
Defined.
